(** * SonicWeave: the mixer and the WAV encoder of [src/services/audioUtils.ts],
      the composition session of [src/App.tsx], and the numbers computed by
      the track editor and the timeline of [src/components]

    The development follows the TypeScript source function by function.

    - JavaScript numbers are IEEE-754 binary64 values.  They are modelled with
      the Standard Library's executable specification of binary floating
      point ([SpecFloat]): [spec_float] with precision 53 and [emax] 1024.
      The arithmetic of the source ([+], [*], [/], [<], [Math.max],
      [Math.min], [Math.ceil], [Math.floor], [| 0]) is the correctly rounded
      binary64 arithmetic of ECMAScript.
    - A [Float32Array] is a list of numbers; a store rounds the number to
      binary32 ([Math.fround]), a load returns the stored number.
    - Integer quantities of the Web Audio interface (channel count, frame
      count, sample rate) and the byte offsets of the encoder are integers
      ([Z]); the fixed-width stores of [DataView] wrap them explicitly.
    - An exception of the source ([createBuffer] with a length of zero,
      [getChannelData] with a channel index out of range, a [DataView] store
      out of bounds, an [ArrayBuffer] of negative size) is the result [None].
    - The length argument of [createBuffer] is an [unsigned long] of the
      interface: the number passed is converted modulo [2^32], NaN and the
      infinities to 0, and a length of 0 raises.  Memory is not bounded: an
      allocation of a valid length succeeds.  The properties that state
      that the mixer returns a buffer are stated for frame counts in
      [1, 2^32).
    - In the session, a [setTracks] commits the render it causes and leaves
      the effect of that render pending; the effect runs as a step of its
      own (before the next render at the latest), and a handler can run in
      between.  Decoding, playback and rendering are not modelled. *)

From Stdlib Require Import ZArith Lia Bool SpecFloat Permutation QArith Qround.
From stdpp Require Import base option list strings.

Local Open Scope Z_scope.

(** ** JavaScript numbers *)

Module JS.

Definition number : Type := spec_float.

Definition prec : Z := 53.
Definition emax : Z := 1024.

(** The number [m * 2^e], rounded to binary64 (exact for every literal of the
    source). *)
Definition of_dyadic (m e : Z) : number := binary_normalize prec emax m e false.
Definition of_Z (z : Z) : number := of_dyadic z 0.

Definition zero : number := S754_zero false.
Definition NaN : number := S754_nan.

Definition valid (x : number) : bool := valid_binary prec emax x.

Definition add (x y : number) : number := SFadd prec emax x y.
Definition mul (x y : number) : number := SFmul prec emax x y.
Definition div (x y : number) : number := SFdiv prec emax x y.
Definition ltb (x y : number) : bool := SFltb x y.
Definition leb (x y : number) : bool := SFleb x y.

(** [Math.max(a, b)]: NaN if either argument is NaN; [+0] is larger than
    [-0]. *)
Definition Math_max (a b : number) : number :=
  match SFcompare a b with
  | None => NaN
  | Some Lt => b
  | Some Gt => a
  | Some Eq => match a with S754_zero true => b | _ => a end
  end.

(** [Math.min(a, b)]: NaN if either argument is NaN; [-0] is smaller than
    [+0]. *)
Definition Math_min (a b : number) : number :=
  match SFcompare a b with
  | None => NaN
  | Some Lt => a
  | Some Gt => b
  | Some Eq => match a with S754_zero false => b | _ => a end
  end.

(** The integer part of a finite number, rounded toward zero; [0] for NaN and
    the infinities (ECMAScript's ToIntegerOrInfinity followed by the
    conversions that map the infinities to [0]). *)
Definition truncate (x : number) : Z :=
  match x with
  | S754_finite s m e => cond_Zopp s (Z.shiftl (Zpos m) e)
  | _ => 0
  end.

(** [x | 0]: ToInt32, truncation toward zero then wrap-around to the signed
    32-bit range. *)
Definition ToInt32 (x : number) : Z :=
  let n := truncate x mod 2 ^ 32 in
  if 2 ^ 31 <=? n then n - 2 ^ 32 else n.

(** [Math.floor(x)] as an integer; [None] when the result is NaN or
    infinite. *)
Definition Math_floor (x : number) : option Z :=
  match x with
  | S754_zero _ => Some 0
  | S754_finite s m e => Some (Z.shiftl (cond_Zopp s (Zpos m)) e)
  | _ => None
  end.

(** [Math.ceil(x)] as an integer; [None] when the result is NaN or
    infinite. *)
Definition Math_ceil (x : number) : option Z :=
  match x with
  | S754_zero _ => Some 0
  | S754_finite s m e => Some (- Z.shiftl (cond_Zopp (negb s) (Zpos m)) e)
  | _ => None
  end.

(** [Math.fround(x)]: round to binary32 (ties to even), read back as a
    binary64 number.  This is what a store into a [Float32Array] does. *)
Definition to_binary32 (x : number) : spec_float :=
  match x with
  | S754_finite s m e => binary_round 24 128 s m e
  | _ => x
  end.

Definition of_binary32 (x : spec_float) : number :=
  match x with
  | S754_finite s m e => binary_round prec emax s m e
  | _ => x
  end.

Definition Math_fround (x : number) : number := of_binary32 (to_binary32 x).

(** The numbers a [Float32Array] can hold. *)
Definition is_float32 (x : number) : Prop := Math_fround x = x.

End JS.

Import JS.

(** ** Sample conversion of the encoder ([audioBufferToWav], lines 101-102) *)

(** [Math.max(-1, Math.min(1, x))] *)
Definition clamp (x : number) : number :=
  Math_max (of_Z (-1)) (Math_min (of_Z 1) x).

(** [(0.5 + sample < 0 ? sample * 32768 : sample * 32767) | 0]; the addition
    binds tighter than the comparison. *)
Definition scale (sample : number) : Z :=
  ToInt32 (if ltb (add (of_dyadic 1 (-1)) sample) zero
           then mul sample (of_Z 32768)
           else mul sample (of_Z 32767)).

Definition sampleToInt16 (x : number) : Z := scale (clamp x).


(** ** The Web Audio buffer *)

Abbreviation Float32Array := (list number) (only parsing).

(** [array[k] += v] on a [Float32Array]: the sum is computed in binary64 and
    rounded to binary32 by the store.  An index that is not a valid element
    index (negative, or at or past the end) leaves the array unchanged. *)
Definition Float32Array_add (a : Float32Array) (k : Z) (v : number) : Float32Array :=
  if 0 <=? k then
    match a !! Z.to_nat k with
    | Some old => <[Z.to_nat k := Math_fround (add old v)]> a
    | None => a
    end
  else a.

Module AudioBuffer.

Record t : Type := mk {
  numberOfChannels : Z;
  length : Z;
  sampleRate : Z;
  channelData : list Float32Array
}.

(** [buffer.duration], in seconds. *)
Definition duration (b : t) : number := div (of_Z (length b)) (of_Z (sampleRate b)).

(** [buffer.getChannelData(i)]; an index that names no channel raises
    IndexSizeError. *)
Definition getChannelData (b : t) (i : nat) : option Float32Array :=
  if Z.of_nat i <? numberOfChannels b then channelData b !! i else None.

(** The array returned by [getChannelData] is a view of the buffer: writing
    through it changes the buffer's channel. *)
Definition setChannelData (b : t) (i : nat) (a : Float32Array) : t :=
  mk (numberOfChannels b) (length b) (sampleRate b) (<[i := a]> (channelData b)).

(** The attributes agree with the channel arrays. *)
Definition wf (b : t) : Prop :=
  numberOfChannels b = Z.of_nat (List.length (channelData b)) /\
  Forall (fun ch => Z.of_nat (List.length ch) = length b) (channelData b).

(** Every sample is a binary32 value. *)
Definition float32_samples (b : t) : Prop :=
  Forall (Forall is_float32) (channelData b).

End AudioBuffer.

(** [context.createBuffer(numberOfChannels, length, sampleRate)]: channels
    filled with zeros.  An argument that is zero (or negative) raises
    NotSupportedError.  (So does a channel count or a sample rate above what
    the implementation supports; the calls of the source pass 2 channels and
    44100 Hz.) *)
Definition createBuffer (numberOfChannels length sampleRate : Z) : option AudioBuffer.t :=
  if (0 <? numberOfChannels) && (0 <? length) && (0 <? sampleRate)
  then Some (AudioBuffer.mk numberOfChannels length sampleRate
               (replicate (Z.to_nat numberOfChannels) (replicate (Z.to_nat length) zero)))
  else None.

(** ** Tracks ([src/types.ts]) *)

(** The fields [file], [fileName] and [color] are read by the user interface
    only and are left out. *)
Record AudioTrack : Type := mkTrack {
  id : string;
  buffer : AudioBuffer.t;
  duration : number;
  startTime : number
}.

(** ** The mixer ([mixAudioTracks]) *)

Definition SAMPLE_RATE : Z := 44100.

(** Running a loop body over a range of indices, stopping at the first
    exception. *)
Fixpoint for_each {S : Type} (body : nat -> S -> option S) (range : list nat) (s : S)
  : option S :=
  match range with
  | [] => Some s
  | i :: range' => s' ← body i s; for_each body range' s'
  end.

(** [tracks.reduce((max, track) => Math.max(max, track.startTime + track.duration), 0)] *)
Definition totalDuration (tracks : list AudioTrack) : number :=
  fold_left (fun max track => Math_max max (add (startTime track) (duration track)))
    tracks zero.

(** The conversion of the number [Math.ceil(...)] to the [unsigned long]
    length argument of [createBuffer]: a NaN or an infinity converts to [0],
    an integer is taken modulo [2^32]. *)
Definition to_length (n : option Z) : Z := default 0 n mod 2 ^ 32.

(** [Math.floor(track.startTime * SAMPLE_RATE)]; [None] when it is NaN or
    infinite, and then no [startSample + i] is an element index. *)
Definition startSample (track : AudioTrack) : option Z :=
  Math_floor (mul (startTime track) (of_Z SAMPLE_RATE)).

(** The innermost loop, from index [i] on:
    [if (startSample + i < outputData.length) outputData[startSample + i] += trackChannelData[i]] *)
Fixpoint addSamples (start i : Z) (trackChannelData : list number)
    (outputData : Float32Array) : Float32Array :=
  match trackChannelData with
  | [] => outputData
  | v :: rest =>
      addSamples start (i + 1) rest
        (if start + i <? Z.of_nat (List.length outputData)
         then Float32Array_add outputData (start + i) v
         else outputData)
  end.

(** If the track is mono, channel 0 feeds both output channels. *)
Definition sourceChannel (track : AudioTrack) (channel : nat) : nat :=
  if Z.of_nat channel <? AudioBuffer.numberOfChannels (buffer track) then channel else 0%nat.

(** The body of the channel loop. *)
Definition mixChannel (track : AudioTrack) (channel : nat) (outputBuffer : AudioBuffer.t)
  : option AudioBuffer.t :=
  outputData ← AudioBuffer.getChannelData outputBuffer channel;
  trackChannelData ← AudioBuffer.getChannelData (buffer track) (sourceChannel track channel);
  Some (AudioBuffer.setChannelData outputBuffer channel
          match startSample track with
          | Some start => addSamples start 0 trackChannelData outputData
          | None => outputData
          end).

(** The body of the track loop. *)
Definition mixTrack (track : AudioTrack) (outputBuffer : AudioBuffer.t)
  : option AudioBuffer.t :=
  for_each (mixChannel track)
    (seq 0 (Z.to_nat (AudioBuffer.numberOfChannels outputBuffer))) outputBuffer.

Fixpoint mixTracks (tracks : list AudioTrack) (outputBuffer : AudioBuffer.t)
  : option AudioBuffer.t :=
  match tracks with
  | [] => Some outputBuffer
  | track :: rest => outputBuffer' ← mixTrack track outputBuffer; mixTracks rest outputBuffer'
  end.

Definition mixAudioTracks (tracks : list AudioTrack) : option AudioBuffer.t :=
  match tracks with
  | [] => createBuffer 2 SAMPLE_RATE SAMPLE_RATE
  | _ =>
      outputBuffer ←
        createBuffer 2
          (to_length (Math_ceil (mul (totalDuration tracks) (of_Z SAMPLE_RATE))))
          SAMPLE_RATE;
      mixTracks tracks outputBuffer
  end.


(** ** The encoder ([audioBufferToWav]) *)

(** Bytes are integers in [0, 256). *)
Abbreviation byte := Z (only parsing).

(** The [n] low-order bytes of [v], least significant first (two's complement
    for a negative [v]): what a little-endian [DataView] store of width [n]
    writes after wrapping [v] to that width. *)
Fixpoint le_bytes (n : nat) (v : Z) : list byte :=
  match n with
  | O => []
  | S n' => v mod 256 :: le_bytes n' (v / 256)
  end.

(** The unsigned value of a little-endian byte sequence. *)
Fixpoint le_value (bs : list byte) : Z :=
  match bs with
  | [] => 0
  | b :: bs' => b + 256 * le_value bs'
  end.

(** [new ArrayBuffer(length)]: zero-filled; a negative length raises
    RangeError. *)
Definition ArrayBuffer_new (length : Z) : option (list byte) :=
  if 0 <=? length then Some (replicate (Z.to_nat length) 0) else None.

Module DataView.

(** A store of the bytes [bs] at [offset]; RangeError when they do not fit
    in the view. *)
Definition store (view : list byte) (offset : Z) (bs : list byte) : option (list byte) :=
  if (0 <=? offset) && (offset + Z.of_nat (List.length bs) <=? Z.of_nat (List.length view))
  then Some (take (Z.to_nat offset) view ++ bs
             ++ drop (Z.to_nat offset + List.length bs) view)
  else None.

Definition setUint16 (view : list byte) (offset data : Z) : option (list byte) :=
  store view offset (le_bytes 2 data).

Definition setUint32 (view : list byte) (offset data : Z) : option (list byte) :=
  store view offset (le_bytes 4 data).

Definition setInt16 (view : list byte) (offset data : Z) : option (list byte) :=
  store view offset (le_bytes 2 data).

Definition getUint16 (view : list byte) (offset : Z) : Z :=
  le_value (take 2 (drop (Z.to_nat offset) view)).

Definition getUint32 (view : list byte) (offset : Z) : Z :=
  le_value (take 4 (drop (Z.to_nat offset) view)).

Definition getInt16 (view : list byte) (offset : Z) : Z :=
  let u := getUint16 view offset in
  if 2 ^ 15 <=? u then u - 2 ^ 16 else u.

End DataView.

(** The variables the closures [setUint16] and [setUint32] of
    [audioBufferToWav] share with its body: the view and the running byte
    offset. *)
Record Writer : Type := mkWriter {
  view : list byte;
  offset : Z
}.

Definition setUint16 (data : Z) (w : Writer) : option Writer :=
  v ← DataView.setUint16 (view w) (offset w) data;
  Some (mkWriter v (offset w + 2)).

Definition setUint32 (data : Z) (w : Writer) : option Writer :=
  v ← DataView.setUint32 (view w) (offset w) data;
  Some (mkWriter v (offset w + 4)).

(** [view.setInt16(offset, sample, true); offset += 2] *)
Definition writeSample (sample : Z) (w : Writer) : option Writer :=
  v ← DataView.setInt16 (view w) (offset w) sample;
  Some (mkWriter v (offset w + 2)).

(** The header, lines 78-92.  [pos] is the frame counter of the sample loop;
    it is still [0] when the chunk length is written. *)
Definition writeHeader (numOfChan length sampleRate pos : Z) (w : Writer)
  : option Writer :=
  w ← setUint32 0x46464952 w;
  w ← setUint32 (length - 8) w;
  w ← setUint32 0x45564157 w;
  w ← setUint32 0x20746d66 w;
  w ← setUint32 16 w;
  w ← setUint16 1 w;
  w ← setUint16 numOfChan w;
  w ← setUint32 sampleRate w;
  w ← setUint32 (sampleRate * 2 * numOfChan) w;
  w ← setUint16 (numOfChan * 2) w;
  w ← setUint16 16 w;
  w ← setUint32 0x61746164 w;
  setUint32 (length - pos - 4) w.

(** [for (i = 0; i < buffer.numberOfChannels; i++) channels.push(buffer.getChannelData(i))] *)
Definition collectChannels (b : AudioBuffer.t) : option (list Float32Array) :=
  mapM (AudioBuffer.getChannelData b) (seq 0 (Z.to_nat (AudioBuffer.numberOfChannels b))).

(** One step of the interleaving loop: channel [i] of frame [pos].
    [channels[i]] undefined raises TypeError; [channels[i][pos]] undefined
    converts to NaN. *)
Definition writeChannelSample (channels : list Float32Array) (pos i : nat) (w : Writer)
  : option Writer :=
  ch ← channels !! i;
  writeSample (sampleToInt16 (default NaN (ch !! pos))) w.

Definition writeFrame (channels : list Float32Array) (numOfChan : Z) (pos : nat)
    (w : Writer) : option Writer :=
  for_each (writeChannelSample channels pos) (seq 0 (Z.to_nat numOfChan)) w.

Definition audioBufferToWav (b : AudioBuffer.t) : option (list byte) :=
  let numOfChan := AudioBuffer.numberOfChannels b in
  let length := AudioBuffer.length b * numOfChan * 2 + 44 in
  bufferArr ← ArrayBuffer_new length;
  let pos := 0 in
  w ← writeHeader numOfChan length (AudioBuffer.sampleRate b) pos (mkWriter bufferArr 0);
  channels ← collectChannels b;
  w ← for_each (writeFrame channels numOfChan)
        (seq 0 (Z.to_nat (AudioBuffer.length b))) w;
  Some (view w).

(** Reading the header back. *)
Module WavHeader.
Definition channels (wav : list byte) : Z := DataView.getUint16 wav 22.
Definition sampleRate (wav : list byte) : Z := DataView.getUint32 wav 24.
Definition bitsPerSample (wav : list byte) : Z := DataView.getUint16 wav 34.
Definition dataSize (wav : list byte) : Z := DataView.getUint32 wav 40.
End WavHeader.

(** The conversion the specification describes: clamp, then scale a negative
    or zero value by 32768 and a positive one by 32767, truncating toward
    zero. *)
Definition spec_scale (sample : number) : Z :=
  ToInt32 (if leb sample zero
           then mul sample (of_Z 32768)
           else mul sample (of_Z 32767)).

Definition spec_sampleToInt16 (x : number) : Z := spec_scale (clamp x).


(** ** The composition session ([src/App.tsx]) *)

Module App.

(** The state the handlers share: the [tracks] state variable of the
    committed render, the refs [audioContextRef] (is a context present) and
    [mergedBufferRef], and whether the effect that depends on [[tracks]] is
    still to run for that render. *)
Record State : Type := mkState {
  tracks : list AudioTrack;
  audioContextRef : bool;
  mergedBufferRef : option AudioBuffer.t;
  effectPending : bool
}.

Definition init : State := mkState [] false None false.

(** The effect that depends on [[tracks]], lines 39-49; the playback state it
    also updates is not modelled. *)
Definition tracksEffect (s : State) : State :=
  match tracks s with
  | [] => s
  | _ => mkState (tracks s) (audioContextRef s) None (effectPending s)
  end.

(** The effects of the committed render run, if they have not yet. *)
Definition runEffects (s : State) : State :=
  if effectPending s then
    let s' := tracksEffect s in
    mkState (tracks s') (audioContextRef s') (mergedBufferRef s') false
  else s.

(** [setTracks(prev => f(prev))] and the render it causes: the effects of
    the previous render run before the new render, whose own effect is then
    pending. *)
Definition setTracks (f : list AudioTrack -> list AudioTrack) (s : State) : State :=
  let s' := runEffects s in
  mkState (f (tracks s')) (audioContextRef s') (mergedBufferRef s') true.

(** [handleFileUpload], given the identifier drawn for each file and the
    buffer it decodes to. *)
Definition handleFileUpload (files : list (string * AudioBuffer.t)) (s : State) : State :=
  match files with
  | [] => s
  | _ =>
      if audioContextRef s then
        let defaultStartTime :=
          match last (tracks s) with
          | Some lastTrack => add (startTime lastTrack) (duration lastTrack)
          | None => zero
          end in
        let newTracks :=
          map (fun f => mkTrack (fst f) (snd f) (AudioBuffer.duration (snd f)) defaultStartTime)
            files in
        setTracks (fun prev => prev ++ newTracks) s
      else s
  end.

Definition removeTrack (i : string) (s : State) : State :=
  setTracks (filter (fun t => id t <> i)) s.

Definition updateTrackStartTime (i : string) (newTime : number) (s : State) : State :=
  setTracks
    (map (fun t => if decide (id t = i)
                   then mkTrack (id t) (buffer t) (duration t) (Math_max zero newTime)
                   else t))
    s.

(** [prepareMergedAudio]: the buffer it returns ([None] for [null], and for
    an exception of the mixer) and the state it leaves. *)
Definition prepareMergedAudio (s : State) : option AudioBuffer.t * State :=
  if negb (audioContextRef s) || bool_decide (tracks s = []) then (None, s)
  else
    match mergedBufferRef s with
    | Some b => (Some b, s)
    | None =>
        match mixAudioTracks (tracks s) with
        | Some b =>
            (Some b, mkState (tracks s) (audioContextRef s) (Some b) (effectPending s))
        | None => (None, s)
        end
    end.

(** [handleDownload]: the bytes of the exported file, when there is one, and
    the state it leaves.  Nothing is exported when [prepareMergedAudio]
    returns [null]. *)
Definition handleDownload (s : State) : option (list byte) * State :=
  ((prepareMergedAudio s).1 ≫= audioBufferToWav, (prepareMergedAudio s).2).

(** What happens in a session: the component mounts, a handler runs, or the
    pending effects run. *)
Inductive event : Type :=
  | Mount
  | FileUpload (files : list (string * AudioBuffer.t))
  | RemoveTrack (i : string)
  | UpdateTrackStartTime (i : string) (newTime : number)
  | PrepareMergedAudio
  | RunEffects.

Definition step (s : State) (e : event) : State :=
  match e with
  | Mount => mkState (tracks s) true (mergedBufferRef s) (effectPending s)
  | FileUpload files => handleFileUpload files s
  | RemoveTrack i => removeTrack i s
  | UpdateTrackStartTime i newTime => updateTrackStartTime i newTime s
  | PrepareMergedAudio => snd (prepareMergedAudio s)
  | RunEffects => runEffects s
  end.

Definition run (events : list event) : State := fold_left step events init.

End App.

(** ** The track editor and the timeline ([src/components]) *)

Module TrackItem.

(** [parseFloat(e.target.value) || 0]: a parse that is NaN or a zero is
    replaced by [0]. *)
Definition startTimeInput (parsed : number) : number :=
  match parsed with
  | S754_nan | S754_zero _ => zero
  | _ => parsed
  end.

(** The [onChange] handler of the start-time field. *)
Definition onChange (i : string) (parsed : number) (s : App.State) : App.State :=
  App.updateTrackStartTime i (startTimeInput parsed) s.

End TrackItem.

Module Timeline.

(** [Math.max(totalDuration, 1)] *)
Definition safeDuration (totalDuration : number) : number :=
  Math_max totalDuration (of_Z 1).

(** [(x / safeDuration) * 100], the position of [x] seconds in percent. *)
Definition percent (x totalDuration : number) : number :=
  mul (div x (safeDuration totalDuration)) (of_Z 100).

End Timeline.

(** ** Definitions used to state and prove the properties *)

(** The invariant of [k] right shifts of the mantissa [M]: the quotient is
    in [shr_m], and the round and sticky bits are clear when the shift lost
    nothing. *)
Definition shr_inv (M k : Z) (r : shr_record) : Prop :=
  shr_m r = M / 2 ^ k /\ (shr_r r || shr_s r = true -> M mod 2 ^ k <> 0).

(** What the rounding of a product returns when the exact product is at most
    the integer [C] in magnitude. *)
Definition within (s : bool) (C : Z) (x : number) : Prop :=
  match x with
  | S754_zero s' => s' = s
  | S754_finite s' m e => s' = s /\ e <= 0 /\ Zpos m <= C * 2 ^ (- e)
  | _ => False
  end.

(** The sign of a number; [None] for NaN. *)
Definition signbit (x : number) : option bool :=
  match x with
  | S754_nan => None
  | S754_zero s | S754_infinity s | S754_finite s _ _ => Some s
  end.

(** The sample a track brings to index [k] of output channel [channel]:
    element [k - startSample] of the source channel, when there is one. *)
Definition trackSample (track : AudioTrack) (channel k : nat) : option number :=
  start ← startSample track;
  data ← AudioBuffer.getChannelData (buffer track) (sourceChannel track channel);
  if start <=? Z.of_nat k then data !! Z.to_nat (Z.of_nat k - start) else None.

(** [acc += v] on a [Float32Array] element, when a track has a sample there. *)
Definition mixInto (acc : number) (v : option number) : number :=
  match v with
  | Some v => Math_fround (add acc v)
  | None => acc
  end.

(** The value of index [k] of output channel [channel] after the tracks have
    been added, in order, to the value [acc]. *)
Definition mixedFrom (acc : number) (tracks : list AudioTrack) (channel k : nat) : number :=
  fold_left (fun acc track => mixInto acc (trackSample track channel k)) tracks acc.

Definition mixedSample (tracks : list AudioTrack) (channel k : nat) : number :=
  mixedFrom zero tracks channel k.

(** A track the mixer accepts: its buffer has a first channel and its
    attributes agree with its channel arrays. *)
Definition track_ok (track : AudioTrack) : Prop :=
  AudioBuffer.wf (buffer track) /\ 1 <= AudioBuffer.numberOfChannels (buffer track).

(** What one track does to one channel array of the output (the innermost
    loop of [mixAudioTracks]). *)
Definition addTrack (track : AudioTrack) (channel : nat) (outputData : Float32Array)
  : Float32Array :=
  match startSample track,
        AudioBuffer.getChannelData (buffer track) (sourceChannel track channel) with
  | Some start, Some trackChannelData => addSamples start 0 trackChannelData outputData
  | _, _ => outputData
  end.

Definition addTracks (tracks : list AudioTrack) (channel : nat) (outputData : Float32Array)
  : Float32Array :=
  fold_left (fun a track => addTrack track channel a) tracks outputData.

(** The output length [mixAudioTracks] asks [createBuffer] for. *)
Definition outputLength (tracks : list AudioTrack) : Z :=
  to_length (Math_ceil (mul (totalDuration tracks) (of_Z SAMPLE_RATE))).

(** The frame count [Math.ceil(totalDuration * SAMPLE_RATE)], before its
    conversion to the length argument. *)
Definition frameCount (tracks : list AudioTrack) : option Z :=
  Math_ceil (mul (totalDuration tracks) (of_Z SAMPLE_RATE)).

(** [x], with a negative zero read as [+0] (the same number). *)
Definition plus_zero (x : number) : number :=
  match x with
  | S754_zero _ => zero
  | _ => x
  end.

(** The writer that has written [done] so far into a buffer whose remaining
    [n] bytes are still zero. *)
Definition written (done : list byte) (n : nat) : Writer :=
  mkWriter (done ++ replicate n 0) (Z.of_nat (List.length done)).

(** The 44 bytes of the header. *)
Definition wavHeader (numOfChan length sampleRate pos : Z) : list byte :=
  le_bytes 4 0x46464952 ++ le_bytes 4 (length - 8) ++ le_bytes 4 0x45564157
  ++ le_bytes 4 0x20746d66 ++ le_bytes 4 16 ++ le_bytes 2 1 ++ le_bytes 2 numOfChan
  ++ le_bytes 4 sampleRate ++ le_bytes 4 (sampleRate * 2 * numOfChan)
  ++ le_bytes 2 (numOfChan * 2) ++ le_bytes 2 16
  ++ le_bytes 4 0x61746164 ++ le_bytes 4 (length - pos - 4).

(** The two bytes of channel [i] of frame [pos]. *)
Definition sampleBytes (b : AudioBuffer.t) (pos i : nat) : list byte :=
  le_bytes 2 (sampleToInt16
                (default NaN (ch ← AudioBuffer.channelData b !! i; ch !! pos))).

Definition frameBytes (b : AudioBuffer.t) (pos : nat) : list byte :=
  concat (map (sampleBytes b pos) (seq 0 (Z.to_nat (AudioBuffer.numberOfChannels b)))).

(** The interleaved sample data. *)
Definition wavData (b : AudioBuffer.t) : list byte :=
  concat (map (frameBytes b) (seq 0 (Z.to_nat (AudioBuffer.length b)))).

(** A loop body that appends the bytes [f i] at the running offset. *)
Definition appends (body : nat -> Writer -> option Writer) (f : nat -> list byte)
    (range : list nat) : Prop :=
  forall i done n, i ∈ range -> (List.length (f i) <= n)%nat ->
    body i (written done n) = Some (written (done ++ f i) (n - List.length (f i))).

(** The cached buffer, when there is one and the track list is not empty, is
    the mix of the current tracks. *)
Definition cache_current (s : App.State) : Prop :=
  match App.mergedBufferRef s with
  | Some b => App.tracks s = [] \/ mixAudioTracks (App.tracks s) = Some b
  | None => True
  end.

(** The invariant of the session: once the effect of the committed render
    has run, the cache is current. *)
Definition settled_current (s : App.State) : Prop :=
  App.effectPending s = false -> cache_current s.

(** Sample values and buffers used in the examples. *)
Definition demoMono : AudioBuffer.t :=
  AudioBuffer.mk 1 3 44100 [[of_dyadic 1 (-1); of_dyadic (-1) (-2); of_dyadic 3 (-2)]].

Definition demoStereo : AudioBuffer.t :=
  AudioBuffer.mk 2 2 44100
    [[of_dyadic 1 (-1); of_dyadic (-1) (-2)]; [of_dyadic 3 (-2); S754_zero true]].

(** A one-sample mono clip placed at the start of the timeline. *)
Definition clip (i : string) (sample : number) : AudioTrack :=
  let b := AudioBuffer.mk 1 1 44100 [[sample]] in
  mkTrack i b (AudioBuffer.duration b) zero.

Definition demoTrack (i : string) (b : AudioBuffer.t) (start : number) : AudioTrack :=
  mkTrack i b (AudioBuffer.duration b) start.

(** The total order in which [Math.max] takes the larger argument, as a
    lexicographic key: the infinities outside the finite numbers, [-0] below
    [+0], NaN above everything. *)
Definition order_key (x : number) : Z * Z * Z :=
  match x with
  | S754_infinity true => (-2, 0, 0)
  | S754_finite true m e => (-1, - e, - Zpos m)
  | S754_zero true => (0, 0, 0)
  | S754_zero false => (0, 1, 0)
  | S754_finite false m e => (1, e, Zpos m)
  | S754_infinity false => (2, 0, 0)
  | S754_nan => (3, 0, 0)
  end.

Definition key_lt (a b : Z * Z * Z) : Prop :=
  a.1.1 < b.1.1 \/ a.1.1 = b.1.1 /\ (a.1.2 < b.1.2 \/ a.1.2 = b.1.2 /\ a.2 < b.2).

(** The samples the tracks bring to index [k] of output channel [channel], in
    track order. *)
Definition contributions (tracks : list AudioTrack) (channel k : nat) : list number :=
  omap (fun track => trackSample track channel k) tracks.

(** The sample of channel [i] at frame [pos], as the encoder reads it. *)
Definition sampleAt (b : AudioBuffer.t) (i pos : nat) : number :=
  default NaN (ch ← AudioBuffer.channelData b !! i; ch !! pos).

(** [track.startTime + track.duration], the end of the track in seconds. *)
Definition endTime (track : AudioTrack) : number :=
  add (startTime track) (duration track).









(** Three tracks that all have a sample at index 0, and of which only the
    third has a sample at index 1. *)
Definition overlapAtStart : list AudioTrack :=
  [clip "a" (of_Z 1); clip "b" (of_dyadic 1 (-24));
   demoTrack "c" (AudioBuffer.mk 1 2 44100 [[of_dyadic 1 (-24); of_dyadic 1 (-1)]]) zero].

(** Three one-sample clips: two at the start of the timeline and one at
    sample 2. *)
Definition threeClips : list AudioTrack :=
  [clip "a" (of_Z 1); clip "b" (of_dyadic 1 (-24));
   mkTrack "c" (AudioBuffer.mk 1 1 44100 [[of_dyadic 1 (-24)]])
     (AudioBuffer.duration (AudioBuffer.mk 1 1 44100 [[of_dyadic 1 (-24)]]))
     (of_dyadic 1 (-14))].

(** * Properties *)

(** ** Rounding in [SpecFloat]: the bound kept by a rounded product *)

Lemma digits2_pos_size (p : positive) : digits2_pos p = Pos.size p.
Proof. induction p; simpl; congruence. Qed.

Lemma digits2_pos_bounds (p : positive) :
  2 ^ (Zpos (digits2_pos p) - 1) <= Zpos p < 2 ^ Zpos (digits2_pos p).
Proof.
  induction p as [p IH | p IH |]; cbn [digits2_pos].
  - rewrite Pos2Z.inj_succ, Z.pow_succ_r by lia.
    replace (Z.succ (Zpos (digits2_pos p)) - 1) with (Z.succ (Zpos (digits2_pos p) - 1)) by lia.
    rewrite Z.pow_succ_r by lia. lia.
  - rewrite Pos2Z.inj_succ, Z.pow_succ_r by lia.
    replace (Z.succ (Zpos (digits2_pos p)) - 1) with (Z.succ (Zpos (digits2_pos p) - 1)) by lia.
    rewrite Z.pow_succ_r by lia. lia.
  - cbn. lia.
Qed.

Lemma shr_1_div2 (r : shr_record) :
  0 <= shr_m r ->
  shr_m (shr_1 r) = shr_m r / 2 /\
  (shr_r (shr_1 r) = true -> shr_m r mod 2 = 1) /\
  shr_s (shr_1 r) = shr_r r || shr_s r.
Proof.
  destruct r as [m r s]; cbn [shr_m shr_r shr_s]; intros Hm.
  destruct m as [|[p|p|]|p]; cbn [shr_1 shr_m shr_r shr_s]; try lia.
  - repeat split; try discriminate; reflexivity.
  - rewrite Pos2Z.inj_xI. repeat split.
    + apply Z.div_unique with 1; lia.
    + intros _. symmetry. apply Z.mod_unique with (Zpos p); lia.
  - rewrite Pos2Z.inj_xO. repeat split; try discriminate.
    apply Z.div_unique with 0; lia.
  - repeat split; reflexivity.
Qed.

Lemma shr_inv_step (M k : Z) (r : shr_record) :
  0 <= M -> 0 <= k -> shr_inv M k r -> shr_inv M (k + 1) (shr_1 r).
Proof.
  intros HM Hk [Hq Hr].
  assert (H2k : 0 < 2 ^ k) by (apply Z.pow_pos_nonneg; lia).
  assert (Hm : 0 <= shr_m r) by (rewrite Hq; apply Z.div_pos; lia).
  destruct (shr_1_div2 r Hm) as (Hq' & Hr' & Hs').
  unfold shr_inv. rewrite Z.pow_add_r, Z.pow_1_r by lia.
  split.
  - rewrite Hq', Hq, Z.div_div by lia. reflexivity.
  - intros Hb Hz.
    assert (Hdiv : M = 2 ^ k * 2 * (M / (2 ^ k * 2))).
    { pose proof (Z.div_mod M (2 ^ k * 2)). lia. }
    apply orb_true_iff in Hb as [Hb | Hb].
    + specialize (Hr' Hb). rewrite Hq in Hr'.
      assert (M / 2 ^ k = 2 * (M / (2 ^ k * 2))).
      { rewrite Hdiv at 1. rewrite <- Z.mul_assoc, Z.mul_comm, Z.div_mul by lia. lia. }
      rewrite H, Z.mul_comm, Z.mod_mul in Hr' by lia. discriminate.
    + rewrite Hs' in Hb. apply Hr in Hb. apply Hb.
      rewrite Hdiv, <- Z.mul_assoc, Z.mul_comm, Z.mod_mul by lia. reflexivity.
Qed.

Lemma shr_inv_iter (M : Z) (p : positive) :
  0 <= M ->
  forall (k : Z) (r : shr_record),
    0 <= k -> shr_inv M k r -> shr_inv M (k + Zpos p) (SpecFloat.iter_pos shr_1 p r).
Proof.
  intros HM. induction p as [p IH | p IH |]; intros k r Hk Hinv; cbn [SpecFloat.iter_pos].
  - replace (k + Zpos p~1) with (k + 1 + Zpos p + Zpos p) by lia.
    apply IH; [lia|]. apply IH; [lia|]. apply shr_inv_step; assumption.
  - replace (k + Zpos p~0) with (k + Zpos p + Zpos p) by lia.
    apply IH; [lia|]. apply IH; assumption.
  - apply shr_inv_step; assumption.
Qed.

Lemma fexp_nonpos (M E : Z) :
  0 <= M -> E <= 0 -> M < 2 ^ (53 - E) -> E - 53 <= fexp 53 1024 (Zdigits2 M + E) <= 0.
Proof.
  intros HM HE HB. unfold fexp, emin.
  destruct M as [|p|p]; cbn [Zdigits2]; [lia| |lia].
  pose proof (digits2_pos_bounds p) as [Hlo _].
  assert (Zpos (digits2_pos p) - 1 < 53 - E).
  { apply (Z.pow_lt_mono_r_iff 2); lia. }
  lia.
Qed.

Lemma shr_fexp_spec (M E : Z) :
  0 <= M -> E <= 0 -> M < 2 ^ (53 - E) ->
  exists r e, shr_fexp 53 1024 M E loc_Exact = (r, e) /\
              E <= e <= 0 /\ shr_inv M (e - E) r.
Proof.
  intros HM HE HB. pose proof (fexp_nonpos M E HM HE HB) as Hf.
  unfold shr_fexp, shr. cbn [shr_record_of_loc].
  assert (H0 : shr_inv M 0 {| shr_m := M; shr_r := false; shr_s := false |}).
  { split; cbn; [rewrite Z.div_1_r; reflexivity | discriminate]. }
  destruct (fexp 53 1024 (Zdigits2 M + E) - E) as [|p|p] eqn:Hn.
  - eexists _, _. split; [reflexivity|]. split; [lia|].
    replace (E - E) with 0 by lia. exact H0.
  - eexists _, _. split; [reflexivity|]. split; [lia|].
    replace (E + Zpos p - E) with (0 + Zpos p) by lia.
    apply shr_inv_iter; [assumption|lia|exact H0].
  - eexists _, _. split; [reflexivity|]. split; [lia|].
    replace (E - E) with 0 by lia. exact H0.
Qed.

Lemma round_nearest_even_bound (M k B : Z) (r : shr_record) :
  0 <= M -> 0 <= k -> shr_inv M k r -> M <= B * 2 ^ k ->
  0 <= round_nearest_even (shr_m r) (loc_of_shr_record r) <= B.
Proof.
  intros HM Hk [Hq Hr] HB.
  assert (H2k : 0 < 2 ^ k) by (apply Z.pow_pos_nonneg; lia).
  assert (Hm0 : 0 <= shr_m r) by (rewrite Hq; apply Z.div_pos; lia).
  assert (HmB : shr_m r <= B).
  { rewrite Hq. apply Z.div_le_upper_bound; lia. }
  assert (Hinex : shr_r r || shr_s r = true -> shr_m r + 1 <= B).
  { intros Hb. specialize (Hr Hb).
    enough (shr_m r < B) by lia.
    rewrite Hq. apply Z.div_lt_upper_bound; [lia|].
    destruct (Z.eq_dec M (B * 2 ^ k)) as [->|]; [|lia].
    rewrite Z.mod_mul in Hr by lia. congruence. }
  destruct r as [m [|] [|]]; cbn [shr_m shr_r shr_s orb] in *;
    cbn [loc_of_shr_record round_nearest_even];
    try destruct (Z.even m); lia.
Qed.

Lemma binary_round_aux_within (s : bool) (M : positive) (E C : Z) :
  E <= 0 -> 0 <= C < 2 ^ 53 -> Zpos M <= C * 2 ^ (- E) ->
  within s C (binary_round_aux 53 1024 s (Zpos M) E loc_Exact).
Proof.
  intros HE HC HM.
  assert (Hlt : forall m e, e <= 0 -> m <= C * 2 ^ (- e) -> m < 2 ^ (53 - e)).
  { intros m e He Hm. replace (53 - e) with (53 + - e) by lia.
    rewrite Z.pow_add_r by lia.
    assert (0 < 2 ^ (- e)) by (apply Z.pow_pos_nonneg; lia). nia. }
  unfold binary_round_aux.
  destruct (shr_fexp_spec (Zpos M) E) as (r1 & e1 & -> & He1 & Hinv1);
    [lia | lia | apply Hlt; lia |].
  assert (Hm2 : 0 <= round_nearest_even (shr_m r1) (loc_of_shr_record r1)
                <= C * 2 ^ (- e1)).
  { apply (round_nearest_even_bound (Zpos M) (e1 - E)); [lia | lia | assumption |].
    rewrite <- Z.mul_assoc, <- Z.pow_add_r by lia.
    replace (- e1 + (e1 - E)) with (- E) by lia. assumption. }
  set (m2 := round_nearest_even (shr_m r1) (loc_of_shr_record r1)) in *.
  destruct (shr_fexp_spec m2 e1) as (r2 & e2 & -> & He2 & [Hq2 _]);
    [lia | lia | apply Hlt; lia |].
  assert (H2k : 0 < 2 ^ (e2 - e1)) by (apply Z.pow_pos_nonneg; lia).
  assert (Hm3 : 0 <= shr_m r2 <= C * 2 ^ (- e2)).
  { rewrite Hq2. split; [apply Z.div_pos; lia|].
    apply Z.div_le_upper_bound; [lia|].
    rewrite Z.mul_comm, <- Z.mul_assoc, <- Z.pow_add_r by lia.
    replace (- e2 + (e2 - e1)) with (- e1) by lia. lia. }
  destruct (shr_m r2) as [|m3|m3]; cbn [within]; [reflexivity | | lia].
  replace (e2 <=? 1024 - 53) with true by (symmetry; apply Z.leb_le; lia).
  cbn [within]. repeat split; lia.
Qed.

Lemma truncate_within (s : bool) (C : Z) (x : number) :
  0 <= C -> within s C x ->
  exists v, truncate x = cond_Zopp s v /\ 0 <= v <= C.
Proof.
  intros HC Hx. destruct x as [s'|s'| |s' m e]; cbn [within] in Hx; try contradiction.
  - exists 0. destruct s; cbn; lia.
  - destruct Hx as (-> & He & Hm). exists (Z.shiftl (Zpos m) e). split; [reflexivity|].
    rewrite Z.shiftl_div_pow2 by lia.
    assert (0 < 2 ^ (- e)) by (apply Z.pow_pos_nonneg; lia).
    split; [apply Z.div_pos; lia | apply Z.div_le_upper_bound; lia].
Qed.

Lemma valid_mantissa (s : bool) (m : positive) (e : Z) :
  valid (S754_finite s m e) = true -> Zpos m < 2 ^ 53.
Proof.
  unfold valid, valid_binary, bounded, canonical_mantissa, fexp, emin, prec, emax.
  intros H. apply andb_true_iff in H as [H _]. apply Z.eqb_eq in H.
  pose proof (digits2_pos_bounds m) as [_ Hhi].
  eapply Z.lt_le_trans; [exact Hhi|]. apply Z.pow_le_mono_r; lia.
Qed.

Lemma ToInt32_small (x : number) :
  - 2 ^ 31 <= truncate x < 2 ^ 31 -> ToInt32 x = truncate x.
Proof.
  intros H. unfold ToInt32.
  destruct (Z.le_gt_cases 0 (truncate x)) as [Hs | Hs].
  - rewrite Z.mod_small by lia.
    destruct (Z.leb_spec (2 ^ 31) (truncate x)); lia.
  - replace (truncate x mod 2 ^ 32) with (truncate x + 2 ^ 32).
    + destruct (Z.leb_spec (2 ^ 31) (truncate x + 2 ^ 32)); lia.
    + apply Z.mod_unique with (-1); lia.
Qed.

(** ** The clamp *)

Lemma within_one_small (s : bool) (m : positive) (e : Z) :
  Zpos m < 2 ^ 53 ->
  e < -52 \/ e = -52 /\ Zpos m <= 2 ^ 52 ->
  within s 1 (S754_finite s m e).
Proof.
  intros Hv He. cbn [within]. split; [reflexivity|].
  split; [destruct He as [He | [He _]]; lia|].
  rewrite Z.mul_1_l. destruct He as [He | [-> Hm]]; [|exact Hm].
  eapply Z.le_trans; [apply Z.lt_le_incl; exact Hv|].
  apply Z.pow_le_mono_r; lia.
Qed.

Lemma within_one_unit (s : bool) : within s 1 (S754_finite s 4503599627370496 (-52)).
Proof. cbn [within]. repeat split; [lia|]. vm_compute. discriminate. Qed.

Lemma clamp_within_sign (x : number) :
  valid x = true ->
  match signbit x with
  | Some s => within s 1 (clamp x)
  | None => clamp x = NaN
  end.
Proof.
  intros Hv. destruct x as [s|s| |s m e]; cbn [signbit].
  - destruct s; vm_compute; reflexivity.
  - destruct s; vm_compute; repeat split; discriminate.
  - reflexivity.
  - apply valid_mantissa in Hv.
    unfold clamp.
    change (of_Z 1) with (S754_finite false 4503599627370496 (-52)).
    change (of_Z (-1)) with (S754_finite true 4503599627370496 (-52)).
    unfold Math_min, Math_max.
    destruct s; cbn [SFcompare].
    + destruct (Z.compare_spec (-52) e) as [<- | He | He].
      * change (Pos.compare_cont Eq ?a ?b) with (Pos.compare a b).
        destruct (Pos.compare_spec 4503599627370496 m) as [<- | Hm | Hm];
          cbn [SFcompare]; rewrite ?Z.compare_refl, ?Pos.compare_cont_refl;
          cbn [CompOpp].
        -- apply within_one_unit.
        -- apply within_one_unit.
        -- apply Pos2Z.pos_lt_pos in Hm.
           apply within_one_small; [assumption|].
           right. split; [reflexivity|]. apply Z.lt_le_incl. exact Hm.
      * apply within_one_unit.
      * apply within_one_small; [assumption|]. left. exact He.
    + destruct (Z.compare_spec (-52) e) as [<- | He | He].
      * change (Pos.compare_cont Eq ?a ?b) with (Pos.compare a b).
        destruct (Pos.compare_spec 4503599627370496 m) as [<- | Hm | Hm];
          cbn [SFcompare].
        -- apply within_one_unit.
        -- apply within_one_unit.
        -- apply Pos2Z.pos_lt_pos in Hm.
           apply within_one_small; [assumption|].
           right. split; [reflexivity|]. apply Z.lt_le_incl. exact Hm.
      * cbn [SFcompare]. apply within_one_unit.
      * cbn [SFcompare]. apply within_one_small; [assumption|]. left. exact He.
Qed.

Lemma clamp_within (x : number) :
  valid x = true -> clamp x = NaN \/ exists s, within s 1 (clamp x).
Proof.
  intros Hv. pose proof (clamp_within_sign x Hv) as H.
  destruct (signbit x) as [s|]; [right; exists s; exact H | left; exact H].
Qed.

(** ** The sample conversion stays in the 16-bit range *)

Lemma mul_within (s : bool) (m : positive) (e C : Z) (mc : positive) (ec : Z) :
  within s 1 (S754_finite s m e) ->
  ec <= 0 -> 0 <= C < 2 ^ 53 -> Zpos mc = C * 2 ^ (- ec) ->
  within s C (mul (S754_finite s m e) (S754_finite false mc ec)).
Proof.
  intros (_ & He & Hm) Hec HC Hmc.
  unfold mul, SFmul. rewrite xorb_false_r.
  apply binary_round_aux_within; [lia | assumption |].
  rewrite Pos2Z.inj_mul, Hmc.
  replace (- (e + ec)) with (- e + - ec) by lia.
  rewrite Z.pow_add_r by lia.
  assert (0 < 2 ^ (- ec)) by (apply Z.pow_pos_nonneg; lia).
  rewrite Z.mul_1_l in Hm. nia.
Qed.

Lemma ltb_round_nonneg (M E : Z) (l : location) :
  ltb (binary_round_aux 53 1024 false M E l) zero = false.
Proof.
  unfold binary_round_aux.
  destruct (shr_fexp 53 1024 M E l) as [r1 e1].
  destruct (shr_fexp 53 1024 _ e1 loc_Exact) as [r2 e2].
  destruct (shr_m r2); [reflexivity | | reflexivity].
  destruct (e2 <=? 1024 - 53); reflexivity.
Qed.

Lemma ltb_add_nonneg (x : number) (m : positive) (e : Z) :
  (exists mx ex, x = S754_finite false mx ex) ->
  ltb (add x (S754_finite false m e)) zero = false.
Proof.
  intros (mx & ex & ->). unfold add, SFadd. cbn [cond_Zopp].
  destruct (shl_align mx ex _) as [m1 e1]. destruct (shl_align m e _) as [m2 e2].
  cbn [fst]. change (Z.pos m1 + Z.pos m2) with (Z.pos (m1 + m2)).
  unfold binary_normalize, binary_round.
  destruct (shl_align _ _ _) as [mz ez]. apply ltb_round_nonneg.
Qed.

Lemma scale_within_range (y : number) (s : bool) :
  within s 1 y ->
  if s then - 32768 <= scale y <= 0 else 0 <= scale y <= 32767.
Proof.
  intros Hy. destruct y as [s'|s'| |s' m e]; cbn [within] in Hy; try contradiction.
  - subst s'. destruct s; vm_compute; split; discriminate.
  - assert (Hs : s' = s) by apply Hy. subst s'.
    assert (H1 : within s 32768 (mul (S754_finite s m e) (of_Z 32768))).
    { change (of_Z 32768) with (S754_finite false 4503599627370496 (-37)).
      apply mul_within; [exact Hy | lia | lia | reflexivity]. }
    assert (H2 : within s 32767 (mul (S754_finite s m e) (of_Z 32767))).
    { change (of_Z 32767) with (S754_finite false 9006924376834048 (-38)).
      apply mul_within; [exact Hy | lia | lia | reflexivity]. }
    apply truncate_within in H1 as (v1 & Ht1 & Hv1); [|lia].
    apply truncate_within in H2 as (v2 & Ht2 & Hv2); [|lia].
    unfold scale. destruct s.
    + destruct (ltb _ zero); rewrite ToInt32_small; rewrite ?Ht1, ?Ht2; cbn [cond_Zopp]; lia.
    + change (of_dyadic 1 (-1)) with (S754_finite false 4503599627370496 (-53)).
      rewrite ltb_add_nonneg by eauto.
      rewrite ToInt32_small; rewrite Ht2; cbn [cond_Zopp]; lia.
Qed.

Lemma sampleToInt16_bounds (x : number) :
  valid x = true -> - 32768 <= sampleToInt16 x <= 32767.
Proof.
  intros Hv. unfold sampleToInt16.
  destruct (clamp_within x Hv) as [-> | [s Hs]].
  - vm_compute. split; discriminate.
  - apply scale_within_range in Hs. destruct s; lia.
Qed.

Lemma sampleToInt16_sign (x : number) :
  valid x = true ->
  match signbit x with
  | Some false => 0 <= sampleToInt16 x <= 32767
  | Some true => - 32768 <= sampleToInt16 x <= 0
  | None => sampleToInt16 x = 0
  end.
Proof.
  intros Hv. pose proof (clamp_within_sign x Hv) as H. unfold sampleToInt16.
  destruct (signbit x) as [s|].
  - apply scale_within_range in H. destruct s; exact H.
  - rewrite H. reflexivity.
Qed.

(** ** The innermost loop of the mixer *)

Lemma Float32Array_add_length (a : Float32Array) (k : Z) (v : number) :
  List.length (Float32Array_add a k v) = List.length a.
Proof.
  unfold Float32Array_add. destruct (0 <=? k); [|reflexivity].
  destruct (a !! Z.to_nat k); [apply length_insert | reflexivity].
Qed.

Lemma Float32Array_add_lookup (a : Float32Array) (x : Z) (v : number) (k : nat) :
  Float32Array_add a x v !! k =
  (fun old => if decide (Z.of_nat k = x) then Math_fround (add old v) else old) <$> a !! k.
Proof.
  unfold Float32Array_add. destruct (Z.leb_spec 0 x) as [Hx | Hx].
  - destruct (a !! Z.to_nat x) as [old|] eqn:Hold.
    + destruct (decide (Z.of_nat k = x)) as [Hk | Hk].
      * assert (Hkx : Z.to_nat x = k) by lia. rewrite Hkx in *.
        rewrite list_lookup_insert_eq by (eapply lookup_lt_Some; eassumption).
        rewrite Hold. reflexivity.
      * rewrite list_lookup_insert_ne by lia. destruct (a !! k); reflexivity.
    + destruct (decide (Z.of_nat k = x)) as [Hk | Hk].
      * assert (Hkx : Z.to_nat x = k) by lia. rewrite Hkx in *. rewrite Hold. reflexivity.
      * destruct (a !! k); reflexivity.
  - destruct (decide (Z.of_nat k = x)); [lia|]. destruct (a !! k); reflexivity.
Qed.

Lemma addSamples_length (data : list number) (start i : Z) (out : Float32Array) :
  List.length (addSamples start i data out) = List.length out.
Proof.
  revert i out. induction data as [|v rest IH]; intros i out; cbn [addSamples]; [reflexivity|].
  rewrite IH. destruct (start + i <? _); [apply Float32Array_add_length | reflexivity].
Qed.

Lemma addSamples_lookup (data : list number) (start i : Z) (out : Float32Array) (k : nat) :
  addSamples start i data out !! k =
  (fun old => mixInto old (if start + i <=? Z.of_nat k
                           then data !! Z.to_nat (Z.of_nat k - (start + i))
                           else None)) <$> out !! k.
Proof.
  revert i out. induction data as [|v rest IH]; intros i out; cbn [addSamples].
  - destruct (out !! k); [|reflexivity]. cbn. destruct (start + i <=? _); reflexivity.
  - rewrite IH.
    assert (Hout : (if start + i <? Z.of_nat (List.length out)
                    then Float32Array_add out (start + i) v else out) !! k
                   = (fun old => if decide (Z.of_nat k = start + i)
                                 then Math_fround (add old v) else old) <$> out !! k).
    { destruct (Z.ltb_spec (start + i) (Z.of_nat (List.length out))) as [Hlt | Hge].
      - apply Float32Array_add_lookup.
      - destruct (out !! k) as [old|] eqn:Hold; [|reflexivity].
        apply lookup_lt_Some in Hold. cbn.
        destruct (decide (Z.of_nat k = start + i)); [lia | reflexivity]. }
    rewrite Hout. destruct (out !! k) as [old|]; [|reflexivity]. cbn. f_equal.
    destruct (decide (Z.of_nat k = start + i)) as [Hk | Hk].
    + destruct (Z.leb_spec (start + (i + 1)) (Z.of_nat k)); [lia|].
      destruct (Z.leb_spec (start + i) (Z.of_nat k)); [|lia].
      replace (Z.to_nat (Z.of_nat k - (start + i))) with 0%nat by lia. reflexivity.
    + destruct (Z.leb_spec (start + (i + 1)) (Z.of_nat k));
        destruct (Z.leb_spec (start + i) (Z.of_nat k)); try lia; [|reflexivity].
      replace (Z.to_nat (Z.of_nat k - (start + i)))
        with (S (Z.to_nat (Z.of_nat k - (start + (i + 1))))) by lia.
      reflexivity.
Qed.

(** ** The mixer in closed form *)

Lemma addTrack_length (track : AudioTrack) (c : nat) (a : Float32Array) :
  List.length (addTrack track c a) = List.length a.
Proof.
  unfold addTrack. destruct (startSample track); [|reflexivity].
  destruct (AudioBuffer.getChannelData _ _); [apply addSamples_length | reflexivity].
Qed.

Lemma addTrack_lookup (track : AudioTrack) (c : nat) (a : Float32Array) (k : nat) :
  addTrack track c a !! k = (fun old => mixInto old (trackSample track c k)) <$> a !! k.
Proof.
  unfold addTrack, trackSample.
  destruct (startSample track) as [start|]; cbn; [|destruct (a !! k); reflexivity].
  destruct (AudioBuffer.getChannelData _ _) as [data|]; cbn;
    [|destruct (a !! k); reflexivity].
  rewrite addSamples_lookup, Z.add_0_r. reflexivity.
Qed.

Lemma addTracks_length (tracks : list AudioTrack) (c : nat) (a : Float32Array) :
  List.length (addTracks tracks c a) = List.length a.
Proof.
  revert a. induction tracks as [|t rest IH]; intros a; cbn; [reflexivity|].
  unfold addTracks in IH. rewrite IH. apply addTrack_length.
Qed.

Lemma addTracks_lookup (tracks : list AudioTrack) (c : nat) (a : Float32Array) (k : nat) :
  addTracks tracks c a !! k = (fun old => mixedFrom old tracks c k) <$> a !! k.
Proof.
  revert a. induction tracks as [|t rest IH]; intros a; cbn.
  - destruct (a !! k); reflexivity.
  - unfold addTracks in IH. rewrite IH, addTrack_lookup.
    destruct (a !! k); reflexivity.
Qed.

Lemma track_ok_source (track : AudioTrack) (c : nat) :
  track_ok track ->
  is_Some (AudioBuffer.getChannelData (buffer track) (sourceChannel track c)).
Proof.
  intros [[Hn _] H1]. unfold AudioBuffer.getChannelData, sourceChannel.
  destruct (Z.ltb_spec (Z.of_nat c) (AudioBuffer.numberOfChannels (buffer track))) as [Hc | Hc].
  - destruct (Z.ltb_spec (Z.of_nat c) (AudioBuffer.numberOfChannels (buffer track))); [|lia].
    apply lookup_lt_is_Some. lia.
  - destruct (Z.ltb_spec (Z.of_nat 0) (AudioBuffer.numberOfChannels (buffer track))); [|lia].
    apply lookup_lt_is_Some. lia.
Qed.

Lemma mixChannel_spec (track : AudioTrack) (c : nat) (out : AudioBuffer.t)
    (a : Float32Array) :
  track_ok track ->
  AudioBuffer.getChannelData out c = Some a ->
  mixChannel track c out = Some (AudioBuffer.setChannelData out c (addTrack track c a)).
Proof.
  intros Hok Ha. destruct (track_ok_source track c Hok) as [d Hd].
  unfold mixChannel, addTrack. rewrite Ha, Hd. reflexivity.
Qed.

Lemma mixTrack_stereo (track : AudioTrack) (L r : Z) (a0 a1 : Float32Array) :
  track_ok track ->
  mixTrack track (AudioBuffer.mk 2 L r [a0; a1]) =
  Some (AudioBuffer.mk 2 L r [addTrack track 0 a0; addTrack track 1 a1]).
Proof.
  intros Hok. unfold mixTrack. cbn [AudioBuffer.numberOfChannels].
  change (Z.to_nat 2) with 2%nat. cbn [seq for_each].
  rewrite (mixChannel_spec track 0 _ a0) by (assumption || reflexivity).
  cbn [mbind option_bind].
  rewrite (mixChannel_spec track 1 _ a1) by (assumption || reflexivity).
  reflexivity.
Qed.

Lemma mixTracks_stereo (tracks : list AudioTrack) (L r : Z) (a0 a1 : Float32Array) :
  Forall track_ok tracks ->
  mixTracks tracks (AudioBuffer.mk 2 L r [a0; a1]) =
  Some (AudioBuffer.mk 2 L r [addTracks tracks 0 a0; addTracks tracks 1 a1]).
Proof.
  intros Hok. revert a0 a1. induction Hok as [|t rest Ht _ IH]; intros a0 a1.
  - reflexivity.
  - cbn [mixTracks]. rewrite mixTrack_stereo by assumption. cbn. apply IH.
Qed.

Lemma addTracks_zeros (tracks : list AudioTrack) (c n : nat) :
  addTracks tracks c (replicate n zero) = map (mixedSample tracks c) (seq 0 n).
Proof.
  apply list_eq. intros k.
  rewrite addTracks_lookup, list_lookup_fmap.
  destruct (decide (k < n)%nat) as [Hk | Hk].
  - rewrite lookup_replicate_2 by assumption. rewrite lookup_seq_lt by assumption.
    reflexivity.
  - rewrite (proj1 (lookup_replicate_None _ _ _)) by lia. rewrite lookup_seq_ge by lia. reflexivity.
Qed.

Lemma createBuffer_stereo (L : Z) :
  createBuffer 2 L SAMPLE_RATE =
  if 0 <? L
  then Some (AudioBuffer.mk 2 L SAMPLE_RATE
               [replicate (Z.to_nat L) zero; replicate (Z.to_nat L) zero])
  else None.
Proof. unfold createBuffer. destruct (0 <? L); reflexivity. Qed.

(** The mixer in closed form: it raises when the converted length is zero,
    and otherwise returns the two channels of mixed samples. *)
Lemma mixAudioTracks_closed_form (tracks : list AudioTrack) :
  tracks <> [] -> Forall track_ok tracks ->
  mixAudioTracks tracks =
  if 0 <? outputLength tracks
  then Some (AudioBuffer.mk 2 (outputLength tracks) SAMPLE_RATE
               [map (mixedSample tracks 0) (seq 0 (Z.to_nat (outputLength tracks)));
                map (mixedSample tracks 1) (seq 0 (Z.to_nat (outputLength tracks)))])
  else None.
Proof.
  intros Hne Hok. unfold mixAudioTracks. destruct tracks as [|t rest]; [congruence|].
  fold (outputLength (t :: rest)). rewrite createBuffer_stereo.
  destruct (0 <? outputLength (t :: rest)); [|reflexivity].
  cbn [mbind option_bind].
  rewrite mixTracks_stereo by assumption.
  rewrite !addTracks_zeros. reflexivity.
Qed.

Lemma outputLength_frameCount (tracks : list AudioTrack) (L : Z) :
  frameCount tracks = Some L -> 0 <= L < 2 ^ 32 -> outputLength tracks = L.
Proof.
  unfold outputLength, frameCount, to_length. intros -> HL. cbn [default].
  apply Z.mod_small. exact HL.
Qed.

Lemma mixAudioTracks_frames (tracks : list AudioTrack) (L : Z) :
  tracks <> [] -> Forall track_ok tracks ->
  frameCount tracks = Some L -> 0 < L < 2 ^ 32 ->
  mixAudioTracks tracks =
  Some (AudioBuffer.mk 2 L SAMPLE_RATE
          [map (mixedSample tracks 0) (seq 0 (Z.to_nat L));
           map (mixedSample tracks 1) (seq 0 (Z.to_nat L))]).
Proof.
  intros Hne Hok HL Hr. rewrite mixAudioTracks_closed_form by assumption.
  rewrite (outputLength_frameCount tracks L HL) by lia.
  destruct (Z.ltb_spec 0 L); [reflexivity | lia].
Qed.

(** ** Binary32 sums from zero *)

Lemma add_comm (x y : number) : add x y = add y x.
Proof.
  unfold add, SFadd.
  destruct x as [[|]|[|]| |sx mx ex], y as [[|]|[|]| |sy my ey]; try reflexivity.
  rewrite Z.min_comm, Z.add_comm. reflexivity.
Qed.

Lemma add_zero_l (v : number) : add zero v = plus_zero v.
Proof. destruct v as [[|]|[|]| |s m e]; reflexivity. Qed.

Lemma add_zero_r (v : number) (s : bool) :
  add (plus_zero v) (S754_zero s) = plus_zero v.
Proof. destruct v as [[|]|[|]| |sv m e], s; reflexivity. Qed.

Lemma fround_plus_zero (v : number) :
  is_float32 v -> Math_fround (plus_zero v) = plus_zero v.
Proof. destruct v; intros H; try exact H; reflexivity. Qed.

Lemma mixInto_zero (v : number) :
  is_float32 v -> mixInto zero (Some v) = plus_zero v.
Proof. intros H. cbn [mixInto]. rewrite add_zero_l. apply fround_plus_zero, H. Qed.

Lemma add_plus_zero_nonzero (v w : number) :
  (forall s, w <> S754_zero s) -> add (plus_zero v) w = add v w.
Proof.
  intros Hw. destruct v as [[|]|[|]| |sv m e]; try reflexivity;
    destruct w as [[|]|[|]| |sw mw ew]; try reflexivity; exfalso; eapply Hw; reflexivity.
Qed.

(** Two samples added to a zero-initialised element give the same value in
    either order. *)
Lemma mixInto_swap (a b : option number) :
  (forall v, a = Some v -> is_float32 v) ->
  (forall v, b = Some v -> is_float32 v) ->
  mixInto (mixInto zero a) b = mixInto (mixInto zero b) a.
Proof.
  intros Ha Hb. destruct a as [va|], b as [vb|]; try reflexivity.
  specialize (Ha va eq_refl). specialize (Hb vb eq_refl).
  rewrite !mixInto_zero by assumption. cbn [mixInto].
  assert (Hz : forall v w s, is_float32 v -> w = S754_zero s ->
            Math_fround (add (plus_zero v) w) = Math_fround (add (plus_zero w) v)).
  { intros v w s Hv ->. rewrite add_zero_r. cbn [plus_zero].
    rewrite add_zero_l. reflexivity. }
  assert (Hd : forall w : number,
            (exists s, w = S754_zero s) \/ (forall s, w <> S754_zero s)).
  { intros [s| | |]; [left; eauto | right; discriminate ..]. }
  destruct (Hd vb) as [[s Hs] | Hnb].
  { apply (Hz va vb s); assumption. }
  destruct (Hd va) as [[s Hs] | Hna].
  { symmetry. apply (Hz vb va s); assumption. }
  rewrite !add_plus_zero_nonzero by assumption.
  rewrite add_comm. reflexivity.
Qed.

(** ** The samples of the tracks *)

Lemma trackSample_float32 (t : AudioTrack) (c k : nat) (v : number) :
  AudioBuffer.float32_samples (buffer t) -> trackSample t c k = Some v -> is_float32 v.
Proof.
  unfold trackSample, AudioBuffer.float32_samples, AudioBuffer.getChannelData.
  intros Hf H.
  destruct (startSample t) as [start|]; [|discriminate]. cbn in H.
  destruct (Z.of_nat (sourceChannel t c) <? _); [|discriminate].
  destruct (AudioBuffer.channelData (buffer t) !! sourceChannel t c) as [data|] eqn:Hd;
    [|discriminate].
  cbn in H. destruct (start <=? Z.of_nat k); [|discriminate].
  rewrite Forall_lookup in Hf. specialize (Hf _ _ Hd).
  rewrite Forall_lookup in Hf. exact (Hf _ _ H).
Qed.

(** ** Placement on the timeline *)

Lemma startSample_zero (t : AudioTrack) (s : bool) :
  startTime t = S754_zero s -> startSample t = Some 0.
Proof. unfold startSample. intros ->. destruct s; reflexivity. Qed.

Lemma trackSample_at (t : AudioTrack) (c i : nat) (start : Z) (data : list number) :
  startSample t = Some start -> 0 <= start ->
  AudioBuffer.getChannelData (buffer t) (sourceChannel t c) = Some data ->
  trackSample t c (Z.to_nat start + i) = data !! i.
Proof.
  intros Hs H0 Hd. unfold trackSample. rewrite Hs, Hd. cbn.
  destruct (Z.leb_spec start (Z.of_nat (Z.to_nat start + i))); [|lia].
  f_equal. lia.
Qed.

(** ** The encoder as a sequential writer *)

Lemma length_le_bytes (n : nat) (v : Z) : List.length (le_bytes n v) = n.
Proof. revert v. induction n as [|n IH]; intros v; cbn; [reflexivity | rewrite IH; reflexivity]. Qed.

Lemma le_value_le_bytes (n : nat) (v : Z) :
  le_value (le_bytes n v) = v mod 2 ^ (8 * Z.of_nat n).
Proof.
  revert v. induction n as [|n IH]; intros v; cbn [le_bytes le_value].
  - cbn. rewrite Z.mod_1_r. reflexivity.
  - rewrite IH. replace (8 * Z.of_nat (S n)) with (8 + 8 * Z.of_nat n) by lia.
    rewrite Z.pow_add_r by lia. change (2 ^ 8) with 256.
    rewrite Z.rem_mul_r by (try apply Z.pow_nonzero; lia). reflexivity.
Qed.

Lemma store_written (done bs : list byte) (n : nat) :
  (List.length bs <= n)%nat ->
  DataView.store (done ++ replicate n 0) (Z.of_nat (List.length done)) bs =
  Some ((done ++ bs) ++ replicate (n - List.length bs) 0).
Proof.
  intros Hn. unfold DataView.store.
  rewrite length_app, length_replicate.
  destruct (Z.leb_spec 0 (Z.of_nat (List.length done))); [|lia].
  destruct (Z.leb_spec (Z.of_nat (List.length done) + Z.of_nat (List.length bs))
              (Z.of_nat (List.length done + n))); [|lia].
  cbn [andb]. rewrite Nat2Z.id. rewrite take_app_length.
  rewrite drop_app_add, drop_replicate. rewrite <- app_assoc. reflexivity.
Qed.

Lemma for_each_appends (body : nat -> Writer -> option Writer) (f : nat -> list byte)
    (range : list nat) (done : list byte) (n : nat) :
  appends body f range ->
  (List.length (concat (map f range)) <= n)%nat ->
  for_each body range (written done n) =
  Some (written (done ++ concat (map f range)) (n - List.length (concat (map f range)))).
Proof.
  intros Hbody. revert done n.
  induction range as [|i rest IH]; intros done n Hn; cbn [map concat for_each].
  - cbn. rewrite app_nil_r, Nat.sub_0_r. reflexivity.
  - cbn [map concat] in Hn. rewrite length_app in Hn.
    rewrite Hbody by (try left; lia). cbn [mbind option_bind].
    rewrite IH.
    + rewrite <- app_assoc, length_app. do 2 f_equal. lia.
    + intros j d m Hj. apply Hbody. right. exact Hj.
    + lia.
Qed.

Lemma writeBytes_appends (bs : list byte) (done : list byte) (n : nat)
    (k : Z) :
  k = Z.of_nat (List.length bs) -> (List.length bs <= n)%nat ->
  (v ← DataView.store (view (written done n)) (offset (written done n)) bs;
   Some (mkWriter v (offset (written done n) + k)))
  = Some (written (done ++ bs) (n - List.length bs)).
Proof.
  intros -> Hn. unfold written. cbn [view offset].
  rewrite store_written by assumption. cbn [mbind option_bind].
  rewrite length_app, Nat2Z.inj_add. reflexivity.
Qed.

Lemma setUint32_written (data : Z) (done : list byte) (n : nat) :
  (4 <= n)%nat ->
  setUint32 data (written done n) = Some (written (done ++ le_bytes 4 data) (n - 4)).
Proof. intros Hn. apply (writeBytes_appends (le_bytes 4 data)); [reflexivity | exact Hn]. Qed.

Lemma setUint16_written (data : Z) (done : list byte) (n : nat) :
  (2 <= n)%nat ->
  setUint16 data (written done n) = Some (written (done ++ le_bytes 2 data) (n - 2)).
Proof. intros Hn. apply (writeBytes_appends (le_bytes 2 data)); [reflexivity | exact Hn]. Qed.

Lemma writeSample_written (sample : Z) (done : list byte) (n : nat) :
  (2 <= n)%nat ->
  writeSample sample (written done n) = Some (written (done ++ le_bytes 2 sample) (n - 2)).
Proof. intros Hn. apply (writeBytes_appends (le_bytes 2 sample)); [reflexivity | exact Hn]. Qed.

Lemma writeHeader_written (numOfChan length sampleRate pos : Z) (n : nat) :
  (44 <= n)%nat ->
  writeHeader numOfChan length sampleRate pos (written [] n) =
  Some (written (wavHeader numOfChan length sampleRate pos) (n - 44)).
Proof.
  intros Hn. unfold writeHeader.
  repeat (first [rewrite setUint32_written by lia | rewrite setUint16_written by lia];
          cbn [mbind option_bind]).
  unfold wavHeader. rewrite <- !app_assoc. cbn [app]. do 2 f_equal. lia.
Qed.

Lemma length_concat_const (f : nat -> list byte) (c : nat) (range : list nat) :
  (forall i, List.length (f i) = c) ->
  List.length (concat (map f range)) = (List.length range * c)%nat.
Proof.
  intros Hf. induction range as [|i rest IH]; cbn; [reflexivity|].
  rewrite length_app, Hf, IH. reflexivity.
Qed.

Lemma length_sampleBytes (b : AudioBuffer.t) (pos i : nat) :
  List.length (sampleBytes b pos i) = 2%nat.
Proof. apply length_le_bytes. Qed.

Lemma length_frameBytes (b : AudioBuffer.t) (pos : nat) :
  List.length (frameBytes b pos) = (Z.to_nat (AudioBuffer.numberOfChannels b) * 2)%nat.
Proof.
  unfold frameBytes. rewrite (length_concat_const _ 2) by apply length_sampleBytes.
  rewrite length_seq. reflexivity.
Qed.

Lemma length_wavData (b : AudioBuffer.t) :
  List.length (wavData b) =
  (Z.to_nat (AudioBuffer.length b) * (Z.to_nat (AudioBuffer.numberOfChannels b) * 2))%nat.
Proof.
  unfold wavData. rewrite (length_concat_const _ _ _ (length_frameBytes b)).
  rewrite length_seq. reflexivity.
Qed.

Lemma length_wavHeader (numOfChan length sampleRate pos : Z) :
  List.length (wavHeader numOfChan length sampleRate pos) = 44%nat.
Proof. reflexivity. Qed.

Lemma collectChannels_wf (b : AudioBuffer.t) :
  AudioBuffer.numberOfChannels b = Z.of_nat (List.length (AudioBuffer.channelData b)) ->
  collectChannels b = Some (AudioBuffer.channelData b).
Proof.
  intros HN. unfold collectChannels. apply mapM_Some.
  apply Forall2_same_length_lookup. split.
  - rewrite length_seq. lia.
  - intros i j ch Hj Hch. apply lookup_seq in Hj as [-> Hi]. cbn.
    unfold AudioBuffer.getChannelData.
    destruct (Z.ltb_spec (Z.of_nat i) (AudioBuffer.numberOfChannels b)); [exact Hch | lia].
Qed.

Lemma writeChannelSample_appends (b : AudioBuffer.t) (pos : nat) :
  AudioBuffer.numberOfChannels b = Z.of_nat (List.length (AudioBuffer.channelData b)) ->
  appends (writeChannelSample (AudioBuffer.channelData b) pos) (sampleBytes b pos)
    (seq 0 (Z.to_nat (AudioBuffer.numberOfChannels b))).
Proof.
  intros HN i done n Hi Hn. apply elem_of_seq in Hi.
  rewrite length_sampleBytes in *.
  destruct (lookup_lt_is_Some_2 (AudioBuffer.channelData b) i) as [ch Hch]; [lia|].
  unfold writeChannelSample, sampleBytes. rewrite Hch. cbn [mbind option_bind].
  apply writeSample_written. exact Hn.
Qed.

Lemma writeFrame_appends (b : AudioBuffer.t) (range : list nat) :
  AudioBuffer.numberOfChannels b = Z.of_nat (List.length (AudioBuffer.channelData b)) ->
  appends (writeFrame (AudioBuffer.channelData b) (AudioBuffer.numberOfChannels b))
    (frameBytes b) range.
Proof.
  intros HN pos done n _ Hn. unfold writeFrame, frameBytes in *.
  apply for_each_appends; [apply writeChannelSample_appends; exact HN | exact Hn].
Qed.

(** The encoder in closed form: the header followed by the interleaved
    samples. *)
Lemma audioBufferToWav_closed_form (b : AudioBuffer.t) :
  AudioBuffer.numberOfChannels b = Z.of_nat (List.length (AudioBuffer.channelData b)) ->
  0 <= AudioBuffer.length b ->
  audioBufferToWav b =
  Some (wavHeader (AudioBuffer.numberOfChannels b)
          (AudioBuffer.length b * AudioBuffer.numberOfChannels b * 2 + 44)
          (AudioBuffer.sampleRate b) 0
        ++ wavData b).
Proof.
  intros HN HL. unfold audioBufferToWav, ArrayBuffer_new.
  set (N := AudioBuffer.numberOfChannels b) in *.
  set (L := AudioBuffer.length b) in *.
  assert (HN0 : 0 <= N) by lia.
  assert (HLN : 0 <= L * N) by (apply Z.mul_nonneg_nonneg; lia).
  destruct (Z.leb_spec 0 (L * N * 2 + 44)); [|lia].
  cbn [mbind option_bind].
  change (mkWriter (replicate ?n 0) 0) with (written [] n).
  assert (Hlen : Z.to_nat (L * N * 2 + 44) = (44 + List.length (wavData b))%nat).
  { rewrite length_wavData. fold N L.
    rewrite Nat.mul_assoc, <- Z2Nat.inj_mul, Z2Nat.inj_add by lia.
    rewrite (Z2Nat.inj_mul _ 2) by lia. change (Z.to_nat 44) with 44%nat.
    change (Z.to_nat 2) with 2%nat. lia. }
  rewrite writeHeader_written by lia. cbn [mbind option_bind].
  rewrite collectChannels_wf by exact HN. cbn [mbind option_bind].
  fold N. rewrite (for_each_appends _ (frameBytes b)).
  - cbn [mbind option_bind]. unfold written. cbn [view].
    unfold wavData in Hlen |- *. subst L N.
    match goal with
    | |- context [replicate ?k 0] => replace k with 0%nat by lia
    end.
    cbn [replicate]. rewrite app_nil_r. reflexivity.
  - apply writeFrame_appends. exact HN.
  - unfold wavData in Hlen. subst L N. lia.
Qed.

(** ** Reading the header back *)

Lemma le_field (pre bs post : list byte) (off : Z) (n : nat) (v : Z) :
  bs = le_bytes n v -> Z.to_nat off = List.length pre ->
  le_value (take n (drop (Z.to_nat off) (pre ++ bs ++ post))) = v mod 2 ^ (8 * Z.of_nat n).
Proof.
  intros -> ->. rewrite drop_app_length.
  rewrite take_app_length' by (rewrite length_le_bytes; reflexivity).
  apply le_value_le_bytes.
Qed.

Lemma wavHeader_fields (N len rate pos : Z) (data : list byte) :
  let wav := wavHeader N len rate pos ++ data in
  WavHeader.channels wav = N mod 2 ^ 16 /\
  WavHeader.sampleRate wav = rate mod 2 ^ 32 /\
  WavHeader.bitsPerSample wav = 16 /\
  WavHeader.dataSize wav = (len - pos - 4) mod 2 ^ 32.
Proof.
  cbv zeta. unfold WavHeader.channels, WavHeader.sampleRate, WavHeader.bitsPerSample,
    WavHeader.dataSize, DataView.getUint16, DataView.getUint32, wavHeader.
  change (Z.to_nat 22) with 22%nat. change (Z.to_nat 24) with 24%nat.
  change (Z.to_nat 34) with 34%nat. change (Z.to_nat 40) with 40%nat.
  cbn [le_bytes app drop take].
  split; [|split; [|split]].
  - exact (le_value_le_bytes 2 N).
  - exact (le_value_le_bytes 4 rate).
  - reflexivity.
  - change (take 0 data) with (@nil Z). exact (le_value_le_bytes 4 (len - pos - 4)).
Qed.

(** ** The cache of the merged buffer *)

Lemma runEffects_cases (s : App.State) :
  App.tracks (App.runEffects s) = App.tracks s /\
  App.audioContextRef (App.runEffects s) = App.audioContextRef s /\
  (App.effectPending s = true ->
   App.effectPending (App.runEffects s) = false /\
   (App.tracks s <> [] -> App.mergedBufferRef (App.runEffects s) = None) /\
   (App.tracks s = [] -> App.mergedBufferRef (App.runEffects s) = App.mergedBufferRef s)) /\
  (App.effectPending s = false -> App.runEffects s = s).
Proof.
  unfold App.runEffects, App.tracksEffect.
  destruct (App.effectPending s); [|repeat split; intros; congruence].
  destruct (App.tracks s) as [|t rest] eqn:Ht;
    cbn [App.tracks App.audioContextRef App.mergedBufferRef App.effectPending];
    repeat split; intros; congruence.
Qed.

Lemma setTracks_cases (f : list AudioTrack -> list AudioTrack) (s : App.State) :
  App.tracks (App.setTracks f s) = f (App.tracks s) /\
  App.audioContextRef (App.setTracks f s) = App.audioContextRef s /\
  App.mergedBufferRef (App.setTracks f s) = App.mergedBufferRef (App.runEffects s) /\
  App.effectPending (App.setTracks f s) = true.
Proof.
  destruct (runEffects_cases s) as (Ht & Hc & _).
  unfold App.setTracks. cbn [App.tracks App.audioContextRef App.mergedBufferRef
                             App.effectPending].
  rewrite Ht, Hc. repeat split.
Qed.

Lemma setTracks_settled (f : list AudioTrack -> list AudioTrack) (s : App.State) :
  settled_current (App.setTracks f s).
Proof.
  destruct (setTracks_cases f s) as (_ & _ & _ & Hp).
  intros H. congruence.
Qed.

Lemma runEffects_current (s : App.State) :
  settled_current s -> cache_current (App.runEffects s).
Proof.
  intros Hs. destruct (runEffects_cases s) as (Ht & _ & Hpend & Hnone).
  destruct (App.effectPending s) eqn:Hp.
  - destruct (Hpend eq_refl) as (_ & Hne & He).
    unfold cache_current. rewrite Ht.
    destruct (App.tracks s) as [|t rest] eqn:Hts.
    + destruct (App.mergedBufferRef _); [left; reflexivity | exact I].
    + rewrite Hne by discriminate. exact I.
  - rewrite Hnone by reflexivity. apply Hs. exact Hp.
Qed.

Lemma prepareMergedAudio_cases (s : App.State) :
  App.tracks (App.prepareMergedAudio s).2 = App.tracks s /\
  App.audioContextRef (App.prepareMergedAudio s).2 = App.audioContextRef s /\
  App.effectPending (App.prepareMergedAudio s).2 = App.effectPending s.
Proof.
  unfold App.prepareMergedAudio.
  destruct (negb _ || _); [repeat split|].
  destruct (App.mergedBufferRef s); [repeat split|].
  destruct (mixAudioTracks _); repeat split.
Qed.

Lemma prepareMergedAudio_current (s : App.State) :
  cache_current s -> cache_current (App.prepareMergedAudio s).2.
Proof.
  unfold App.prepareMergedAudio. intros Hs.
  destruct (negb _ || _); [exact Hs|].
  destruct (App.mergedBufferRef s) eqn:Hm; [exact Hs|].
  destruct (mixAudioTracks _) eqn:Hmix; [|exact Hs].
  unfold cache_current. cbn. right. exact Hmix.
Qed.

Lemma step_settled (s : App.State) (e : App.event) :
  settled_current s -> settled_current (App.step s e).
Proof.
  intros Hs. destruct e as [|files|i|i t| |]; cbn [App.step].
  - exact Hs.
  - unfold App.handleFileUpload. destruct files; [exact Hs|].
    destruct (App.audioContextRef s); [apply setTracks_settled | exact Hs].
  - apply setTracks_settled.
  - apply setTracks_settled.
  - intros Hp. destruct (prepareMergedAudio_cases s) as (_ & _ & Hpe).
    apply prepareMergedAudio_current, Hs. congruence.
  - intros _. apply runEffects_current, Hs.
Qed.

Lemma run_snoc (events : list App.event) (e : App.event) :
  App.run (events ++ [e]) = App.step (App.run events) e.
Proof. unfold App.run. rewrite fold_left_app. reflexivity. Qed.

Lemma run_settled (events : list App.event) : settled_current (App.run events).
Proof.
  induction events as [|e events IH] using rev_ind.
  - intros _. exact I.
  - rewrite run_snoc. apply step_settled, IH.
Qed.

Lemma prepareMergedAudio_served (s : App.State) (b : AudioBuffer.t) :
  cache_current s -> (App.prepareMergedAudio s).1 = Some b ->
  App.tracks s <> [] /\ mixAudioTracks (App.tracks s) = Some b.
Proof.
  unfold App.prepareMergedAudio, cache_current. intros Hs Hb.
  destruct (negb (App.audioContextRef s)); cbn [orb] in Hb; [discriminate|].
  destruct (bool_decide_reflect (App.tracks s = [])) as [He | Hne]; [discriminate|].
  split; [exact Hne|].
  destruct (App.mergedBufferRef s) as [b'|].
  - cbn in Hb. injection Hb as ->. destruct Hs as [Hs | Hs]; [contradiction | exact Hs].
  - destruct (mixAudioTracks (App.tracks s)) as [b'|]; cbn in Hb; congruence.
Qed.

(** ** Concrete inputs, and the session *)

Lemma demoMono_ok (i : string) (start : number) : track_ok (demoTrack i demoMono start).
Proof. split; [split; [reflexivity | repeat constructor] | cbn; lia]. Qed.

(** C1 (the code at a failing input).  For the mono buffer [demoMono] (3
    frames at 44100 Hz) the header read back from the encoder's output
    reports the input's channel count, its sample rate and 16 bits per
    sample, and 6 data bytes follow the header, which is
    [channels * frames * 2]; but the size field at byte offset 40 holds 46:
    the chunk length is written as [length - pos - 4] while [pos] is still
    0, so it counts 40 bytes of the header as well. *)
Theorem data_chunk_size_includes_header :
  exists wav,
    audioBufferToWav demoMono = Some wav /\
    WavHeader.channels wav = AudioBuffer.numberOfChannels demoMono /\
    WavHeader.sampleRate wav = AudioBuffer.sampleRate demoMono /\
    WavHeader.bitsPerSample wav = 16 /\
    Z.of_nat (List.length wav) - 44 = 6 /\
    AudioBuffer.numberOfChannels demoMono * AudioBuffer.length demoMono * 2 = 6 /\
    WavHeader.dataSize wav = 46.
Proof. eexists. split; [vm_compute; reflexivity|]. vm_compute. repeat split. Qed.

(** C2 (the code at a failing input).  The sample [-0.25] is negative, so
    the conversion described scales it by 32768, to [-8192]; the code
    compares [0.5 + sample] with 0, takes the other branch and returns
    [-8191], the truncation of [-0.25 * 32767]. *)
Theorem scale_threshold_is_minus_half :
  sampleToInt16 (of_dyadic (-1) (-2)) = -8191 /\
  spec_sampleToInt16 (of_dyadic (-1) (-2)) = -8192.
Proof. split; vm_compute; reflexivity. Qed.

(** C7.  A sample of 1.5 is clamped to 1.0 and encodes to 32767, as 1.0
    does; a sample of -2.0 is clamped to -1.0 and encodes to -32768, as -1.0
    does. *)
Theorem clamping_examples :
  clamp (of_dyadic 3 (-1)) = of_Z 1 /\
  clamp (of_Z (-2)) = of_Z (-1) /\
  sampleToInt16 (of_dyadic 3 (-1)) = 32767 /\
  sampleToInt16 (of_Z 1) = 32767 /\
  sampleToInt16 (of_Z (-2)) = -32768 /\
  sampleToInt16 (of_Z (-1)) = -32768.
Proof. vm_compute. repeat split. Qed.

(** C3 fails for three overlapping tracks: every partial sum is rounded to
    binary32 when it is stored, and [(0 + 1) + 2^-24 + 2^-24] rounds to [1]
    twice while [(0 + 2^-24) + 2^-24 + 1] is [1 + 2^-23]. *)
Lemma mix_order_matters_for_three_tracks :
  let loud := clip "a" (of_Z 1) in
  let quiet1 := clip "b" (of_dyadic 1 (-24)) in
  let quiet2 := clip "c" (of_dyadic 1 (-24)) in
  Permutation [loud; quiet1; quiet2] [quiet1; quiet2; loud] /\
  mixAudioTracks [loud; quiet1; quiet2] <> mixAudioTracks [quiet1; quiet2; loud].
Proof.
  cbv zeta. split.
  - eapply perm_trans; [apply perm_swap|]. apply perm_skip, perm_swap.
  - vm_compute. discriminate.
Qed.

(** C4.  The mix of no tracks is a buffer of 2 channels at the fixed sample
    rate, one second long (44100 samples per channel), every sample zero; it
    is a result, not an exception. *)
Theorem mix_empty_is_one_second_of_silence :
  exists out0 out1,
    mixAudioTracks [] = Some (AudioBuffer.mk 2 SAMPLE_RATE SAMPLE_RATE [out0; out1]) /\
    List.length out0 = Z.to_nat (1 * SAMPLE_RATE) /\
    List.length out1 = Z.to_nat (1 * SAMPLE_RATE) /\
    Forall (fun x => x = zero) out0 /\ Forall (fun x => x = zero) out1.
Proof.
  exists (replicate (Z.to_nat SAMPLE_RATE) zero), (replicate (Z.to_nat SAMPLE_RATE) zero).
  split; [reflexivity|]. rewrite Z.mul_1_l, length_replicate.
  repeat split; apply Forall_replicate; reflexivity.
Qed.

(** C9 (the code at a failing input).  The cache is cleared by the effect
    that depends on [[tracks]], which runs after the render that a change of
    the track list causes, not by the change itself; and the effect returns
    before it clears the cache when the track list is empty.  A track is
    uploaded and the mix is prepared; then
    - a second track is uploaded and [prepareMergedAudio] is called before
      the effect has run: it returns the mix of the first track alone, not
      the mix of the two current tracks;
    - or the track is removed and the effect runs: the cache still holds the
      mix of the removed track; when another track is then uploaded and
      [prepareMergedAudio] is called before the effect has run, it returns
      the mix of the removed track.
    Once the effect of the last change has run, a buffer that
    [prepareMergedAudio] returns is the mix of the current tracks, in every
    reachable state. *)
Theorem stale_buffer_served_while_effect_pending :
  let a := ("a"%string, demoMono) in
  let b := ("b"%string, demoStereo) in
  let prepared :=
    [App.Mount; App.FileUpload [a]; App.RunEffects; App.PrepareMergedAudio] in
  (let s := App.run (prepared ++ [App.FileUpload [b]]) in
   exists ta tb served current,
     App.tracks (App.run prepared) = [ta] /\
     App.tracks s = [ta; tb] /\
     (App.prepareMergedAudio s).1 = Some served /\
     mixAudioTracks [ta] = Some served /\
     mixAudioTracks [ta; tb] = Some current /\
     served <> current) /\
  (let s := App.run (prepared ++ [App.RemoveTrack "a"; App.RunEffects]) in
   App.tracks s = [] /\
   App.effectPending s = false /\
   App.mergedBufferRef s = App.mergedBufferRef (App.run prepared) /\
   App.mergedBufferRef s <> None) /\
  (let s := App.run (prepared ++ [App.RemoveTrack "a"; App.RunEffects;
                                  App.FileUpload [b]]) in
   exists ta tb served current,
     App.tracks (App.run prepared) = [ta] /\
     App.tracks s = [tb] /\
     (App.prepareMergedAudio s).1 = Some served /\
     mixAudioTracks [ta] = Some served /\
     mixAudioTracks [tb] = Some current /\
     served <> current) /\
  (forall events served,
     App.effectPending (App.run events) = false ->
     (App.prepareMergedAudio (App.run events)).1 = Some served ->
     mixAudioTracks (App.tracks (App.run events)) = Some served).
Proof.
  cbv zeta. split; [|split; [|split]].
  - do 4 eexists.
    split; [vm_compute; reflexivity|]. split; [vm_compute; reflexivity|].
    split; [vm_compute; reflexivity|]. split; [vm_compute; reflexivity|].
    split; [vm_compute; reflexivity|]. vm_compute. discriminate.
  - split; [vm_compute; reflexivity|]. split; [vm_compute; reflexivity|].
    split; [vm_compute; reflexivity|]. vm_compute. discriminate.
  - do 4 eexists.
    split; [vm_compute; reflexivity|]. split; [vm_compute; reflexivity|].
    split; [vm_compute; reflexivity|]. split; [vm_compute; reflexivity|].
    split; [vm_compute; reflexivity|]. vm_compute. discriminate.
  - intros events served Hp Hb.
    apply prepareMergedAudio_served; [apply run_settled, Hp | exact Hb].
Qed.

(** ** Reading the mixed samples *)

Lemma mixAudioTracks_lookup (tracks : list AudioTrack) (L : Z) :
  tracks <> [] -> Forall track_ok tracks ->
  frameCount tracks = Some L -> 0 < L < 2 ^ 32 ->
  exists out0 out1,
    mixAudioTracks tracks = Some (AudioBuffer.mk 2 L SAMPLE_RATE [out0; out1]) /\
    List.length out0 = Z.to_nat L /\
    List.length out1 = Z.to_nat L /\
    forall c out k,
      [out0; out1] !! c = Some out -> (k < Z.to_nat L)%nat ->
      out !! k = Some (mixedSample tracks c k).
Proof.
  intros Hne Hok HL Hr. eexists _, _.
  split; [apply mixAudioTracks_frames; assumption|].
  rewrite !length_map, !length_seq. split; [reflexivity|]. split; [reflexivity|].
  intros c out k Hc Hk.
  assert (out = map (mixedSample tracks c) (seq 0 (Z.to_nat L))) as ->.
  { destruct c as [|[|c]]; simpl in Hc; [injection Hc as <- | injection Hc as <- | discriminate]; reflexivity. }
  rewrite list_lookup_fmap, lookup_seq_lt by assumption. reflexivity.
Qed.

Lemma sourceChannel_data (t : AudioTrack) (c : nat) :
  track_ok t -> (c < 2)%nat ->
  AudioBuffer.getChannelData (buffer t) (sourceChannel t c) =
  AudioBuffer.channelData (buffer t)
    !! (if decide (AudioBuffer.numberOfChannels (buffer t) = 1) then 0%nat else c).
Proof.
  intros [[HN _] H1] Hc. unfold AudioBuffer.getChannelData, sourceChannel.
  destruct (decide (AudioBuffer.numberOfChannels (buffer t) = 1)) as [He | He].
  - rewrite He. destruct c as [|c]; [reflexivity|].
    destruct (Z.ltb_spec (Z.of_nat (S c)) 1); [lia | reflexivity].
  - destruct (Z.ltb_spec (Z.of_nat c) (AudioBuffer.numberOfChannels (buffer t))); [|lia].
    destruct (Z.ltb_spec (Z.of_nat c) (AudioBuffer.numberOfChannels (buffer t))); [|lia].
    reflexivity.
Qed.

(** ** Totality of the encoder and range of the samples *)

(** C8.  On every buffer whose attributes agree with its channel arrays
    (any channel count, any sample rate, any non-negative frame count) the
    encoder returns a byte sequence, of exactly
    [numberOfChannels * length * 2 + 44] bytes; for a buffer of zero frames
    these are the 44 bytes of the header and no sample data. *)
Theorem audioBufferToWav_total_length (b : AudioBuffer.t) :
  AudioBuffer.wf b -> 0 <= AudioBuffer.length b ->
  exists wav,
    audioBufferToWav b = Some wav /\
    Z.of_nat (List.length wav)
      = AudioBuffer.numberOfChannels b * AudioBuffer.length b * 2 + 44 /\
    (AudioBuffer.length b = 0 ->
     wav = wavHeader (AudioBuffer.numberOfChannels b) 44 (AudioBuffer.sampleRate b) 0).
Proof.
  intros [HN _] HL. eexists. split; [apply audioBufferToWav_closed_form; assumption|].
  split.
  - rewrite length_app, length_wavData, length_wavHeader. lia.
  - intros H0. unfold wavData. rewrite H0. cbn [Z.to_nat seq map concat Z.mul Z.add].
    rewrite app_nil_r. reflexivity.
Qed.

Lemma audioBufferToWav_total_length_witness :
  exists wav,
    audioBufferToWav demoStereo = Some wav /\
    Z.of_nat (List.length wav) = 2 * 2 * 2 + 44 /\
    (AudioBuffer.length demoStereo = 0 -> wav = wavHeader 2 44 44100 0).
Proof.
  apply (audioBufferToWav_total_length demoStereo).
  - split; [reflexivity | repeat constructor].
  - cbn. lia.
Defined.

(** C10.  For every binary64 number [x] (finite or not), the integer the
    encoder computes from it by clamping, scaling and truncating lies in
    [-32768, 32767], so [setInt16] never has to wrap it. *)
Theorem sampleToInt16_range (x : number) :
  valid x = true -> - 32768 <= sampleToInt16 x <= 32767.
Proof. apply sampleToInt16_bounds. Qed.

Lemma sampleToInt16_range_witness :
  valid (of_dyadic (-3) (-2)) = true /\
  - 32768 <= sampleToInt16 (of_dyadic (-3) (-2)) <= 32767.
Proof. split; [reflexivity | apply sampleToInt16_range; reflexivity]. Defined.

(** ** The order of [Math.max] *)

Lemma order_key_inj (x y : number) : order_key x = order_key y -> x = y.
Proof.
  destruct x as [[|]|[|]| |[|] mx ex], y as [[|]|[|]| |[|] my ey]; cbn;
    intros H; try discriminate H; try reflexivity; injection H as H1 H2; f_equal; lia.
Qed.

Lemma Math_max_spec (a b : number) :
  (key_lt (order_key a) (order_key b) /\ Math_max a b = b) \/
  (~ key_lt (order_key a) (order_key b) /\ Math_max a b = a).
Proof.
  unfold key_lt, Math_max.
  destruct a as [[|]|[|]| |[|] ma ea], b as [[|]|[|]| |[|] mb eb]; cbn;
    try (left; split; [lia | reflexivity]); try (right; split; [lia | reflexivity]).
  - change (Pos.compare_cont Eq ?p ?q) with (Pos.compare p q).
    destruct (Z.compare_spec ea eb) as [-> | He | He]; cbn.
    + destruct (Pos.compare_spec ma mb) as [-> | Hm | Hm]; cbn;
        [right | right | left]; (split; [lia | reflexivity]).
    + right. split; [lia | reflexivity].
    + left. split; [lia | reflexivity].
  - change (Pos.compare_cont Eq ?p ?q) with (Pos.compare p q).
    destruct (Z.compare_spec ea eb) as [-> | He | He]; cbn.
    + destruct (Pos.compare_spec ma mb) as [-> | Hm | Hm]; cbn;
        [right | left | right]; (split; [lia | reflexivity]).
    + left. split; [lia | reflexivity].
    + right. split; [lia | reflexivity].
Qed.

Lemma key_lt_total (x y : number) :
  ~ key_lt (order_key x) (order_key y) -> ~ key_lt (order_key y) (order_key x) -> x = y.
Proof.
  intros H1 H2. apply order_key_inj.
  destruct (order_key x) as [[x1 x2] x3], (order_key y) as [[y1 y2] y3].
  unfold key_lt in *. cbn in *. f_equal; [f_equal|]; lia.
Qed.

(** Taking the maximum with [x] and then with [y] is taking it with [y] and
    then with [x]. *)
Lemma Math_max_exchange (a x y : number) :
  Math_max (Math_max a x) y = Math_max (Math_max a y) x.
Proof.
  destruct (Math_max_spec a x) as [[Hax Eax] | [Hax Eax]],
           (Math_max_spec a y) as [[Hay Eay] | [Hay Eay]],
           (Math_max_spec x y) as [[Hxy Exy] | [Hxy Exy]],
           (Math_max_spec y x) as [[Hyx Eyx] | [Hyx Eyx]];
    rewrite Eax, Eay, ?Exy, ?Eyx, ?Eax, ?Eay;
    try reflexivity;
    try (apply key_lt_total; assumption);
    try (symmetry; apply key_lt_total; assumption);
    exfalso; unfold key_lt in *; lia.
Qed.

Lemma totalDuration_from_permutation (l l' : list AudioTrack) (acc : number) :
  Permutation l l' ->
  fold_left (fun max track => Math_max max (add (startTime track) (duration track))) l acc =
  fold_left (fun max track => Math_max max (add (startTime track) (duration track))) l' acc.
Proof.
  intros HP. revert acc. induction HP as [|t l l' _ IH|t u l|l l' l'' _ IH1 _ IH2]; intros acc.
  - reflexivity.
  - cbn [fold_left]. apply IH.
  - cbn [fold_left]. rewrite Math_max_exchange. reflexivity.
  - rewrite IH1. apply IH2.
Qed.

(** ** Tracks that overlap at most in pairs *)

Lemma mixedFrom_contributions (tracks : list AudioTrack) (c k : nat) (acc : number) :
  mixedFrom acc tracks c k =
  fold_left (fun acc v => Math_fround (add acc v)) (contributions tracks c k) acc.
Proof.
  unfold mixedFrom, contributions. revert acc.
  induction tracks as [|t rest IH]; intros acc; [reflexivity|].
  cbn [fold_left]. rewrite IH. cbn [omap list_omap].
  destruct (trackSample t c k); reflexivity.
Qed.

Lemma contributions_float32 (tracks : list AudioTrack) (c k : nat) :
  Forall (fun t => AudioBuffer.float32_samples (buffer t)) tracks ->
  Forall is_float32 (contributions tracks c k).
Proof.
  intros Hf. apply Forall_forall. intros v Hv.
  apply list_elem_of_omap in Hv as (t & Ht & Hs).
  rewrite Forall_forall in Hf. eapply trackSample_float32; [apply Hf, Ht | exact Hs].
Qed.

Lemma sum_of_two_any_order (vs vs' : list number) :
  Permutation vs vs' -> (List.length vs <= 2)%nat -> Forall is_float32 vs ->
  fold_left (fun acc v => Math_fround (add acc v)) vs zero =
  fold_left (fun acc v => Math_fround (add acc v)) vs' zero.
Proof.
  intros HP Hlen Hf. destruct vs as [|a [|b [|? ?]]]; cbn in Hlen; [| | |lia].
  - apply Permutation_nil in HP. subst. reflexivity.
  - apply Permutation_length_1_inv in HP. subst. reflexivity.
  - apply Permutation_length_2_inv in HP as [-> | ->]; [reflexivity|].
    inversion Hf as [|? ? Ha Hf']; subst. inversion Hf' as [|? ? Hb _]; subst.
    cbn [fold_left].
    apply (mixInto_swap (Some a) (Some b)); intros v [= <-]; assumption.
Qed.

Lemma outputLength_permutation (l l' : list AudioTrack) :
  Permutation l l' -> outputLength l = outputLength l'.
Proof.
  intros HP. unfold outputLength, totalDuration.
  rewrite (totalDuration_from_permutation l l' zero HP). reflexivity.
Qed.

Lemma mixedSample_permutation (l l' : list AudioTrack) (c k : nat) :
  Permutation l l' ->
  Forall (fun t => AudioBuffer.float32_samples (buffer t)) l ->
  (List.length (contributions l c k) <= 2)%nat ->
  mixedSample l c k = mixedSample l' c k.
Proof.
  intros HP Hf Hpair. unfold mixedSample. rewrite !mixedFrom_contributions.
  apply sum_of_two_any_order.
  - unfold contributions. rewrite HP. reflexivity.
  - exact Hpair.
  - apply contributions_float32, Hf.
Qed.

Lemma mixAudioTracks_pairwise_overlap (l l' : list AudioTrack) :
  Permutation l l' ->
  Forall track_ok l ->
  Forall (fun t => AudioBuffer.float32_samples (buffer t)) l ->
  (forall c k, (c < 2)%nat -> (List.length (contributions l c k) <= 2)%nat) ->
  mixAudioTracks l = mixAudioTracks l'.
Proof.
  intros HP Hok Hf Hpair.
  destruct l as [|t l0].
  { apply Permutation_nil in HP. subst. reflexivity. }
  assert (Hne' : l' <> []).
  { intros ->. apply Permutation_sym, Permutation_nil in HP. discriminate. }
  assert (Hok' : Forall track_ok l').
  { eapply Permutation_Forall; eassumption. }
  rewrite !mixAudioTracks_closed_form by (assumption || discriminate).
  rewrite (outputLength_permutation _ _ HP).
  destruct (0 <? outputLength l'); [|reflexivity].
  do 3 f_equal; [|f_equal]; apply map_ext; intros k;
    apply mixedSample_permutation; try assumption; apply Hpair; lia.
Qed.

(** ** Reading the samples back *)

Lemma concat_chunk (f : nat -> list byte) (c n a j : nat) :
  (forall i, List.length (f i) = c) -> (j < n)%nat ->
  take c (drop (j * c) (concat (map f (seq a n)))) = f (a + j)%nat.
Proof.
  intros Hf. revert a j. induction n as [|n IH]; intros a j Hj; [lia|].
  cbn [seq map concat]. destruct j as [|j].
  - cbn [Nat.mul drop]. rewrite Nat.add_0_r. apply take_app_length'. symmetry. apply Hf.
  - replace (S j * c)%nat with (List.length (f a) + j * c)%nat by (rewrite Hf; lia).
    rewrite drop_app_add. rewrite IH by lia. f_equal. lia.
Qed.

Lemma chunk_of_chunk (l : list byte) (a n b m : nat) :
  (b + m <= n)%nat ->
  take m (drop b (take n (drop a l))) = take m (drop (a + b) l).
Proof.
  intros H. rewrite <- drop_drop. rewrite !take_drop_commute, take_take.
  do 3 f_equal. lia.
Qed.

Lemma getInt16_le_bytes (v : Z) (rest : list byte) :
  - 2 ^ 15 <= v < 2 ^ 15 ->
  (let u := le_value (take 2 (le_bytes 2 v ++ rest)) in
   if 2 ^ 15 <=? u then u - 2 ^ 16 else u) = v.
Proof.
  intros Hv. cbv zeta.
  rewrite take_app_length' by reflexivity. rewrite le_value_le_bytes.
  change (8 * Z.of_nat 2) with 16.
  destruct (Z.le_gt_cases 0 v).
  - rewrite Z.mod_small by lia. destruct (Z.leb_spec (2 ^ 15) v); lia.
  - replace (v mod 2 ^ 16) with (v + 2 ^ 16) by (apply Z.mod_unique with (-1); lia).
    destruct (Z.leb_spec (2 ^ 15) (v + 2 ^ 16)); lia.
Qed.

Lemma wavData_sample (b : AudioBuffer.t) (pos i : nat) :
  (pos < Z.to_nat (AudioBuffer.length b))%nat ->
  (i < Z.to_nat (AudioBuffer.numberOfChannels b))%nat ->
  take 2 (drop ((pos * Z.to_nat (AudioBuffer.numberOfChannels b) + i) * 2) (wavData b))
  = le_bytes 2 (sampleToInt16 (sampleAt b i pos)).
Proof.
  intros Hpos Hi. set (N := Z.to_nat (AudioBuffer.numberOfChannels b)) in *.
  replace ((pos * N + i) * 2)%nat with (pos * (N * 2) + i * 2)%nat by lia.
  rewrite <- (chunk_of_chunk _ _ (N * 2)) by lia.
  unfold wavData. rewrite (concat_chunk _ (N * 2)) by (apply length_frameBytes || lia).
  cbn [Nat.add]. unfold frameBytes. fold N.
  rewrite (concat_chunk _ 2) by (apply length_sampleBytes || lia).
  reflexivity.
Qed.

(** ** The mixed buffer is well formed *)

Lemma Math_max_not_negative (acc x : number) :
  signbit acc <> Some true -> signbit (Math_max acc x) <> Some true.
Proof.
  intros Hacc. destruct (Math_max_spec acc x) as [[Hlt ->] | [_ ->]]; [|exact Hacc].
  unfold key_lt in Hlt.
  destruct acc as [[|]|[|]| |[|] ma ea]; try (exfalso; apply Hacc; reflexivity);
    destruct x as [[|]|[|]| |[|] mx ex]; cbn in *; try discriminate; lia.
Qed.

Lemma totalDuration_not_negative (tracks : list AudioTrack) :
  signbit (totalDuration tracks) <> Some true.
Proof.
  unfold totalDuration.
  assert (H : forall acc, signbit acc <> Some true ->
            signbit (fold_left (fun max track =>
                       Math_max max (add (startTime track) (duration track))) tracks acc)
            <> Some true).
  { induction tracks as [|t rest IH]; intros acc Hacc; [exact Hacc|].
    cbn [fold_left]. apply IH, Math_max_not_negative, Hacc. }
  apply H. discriminate.
Qed.

Lemma signbit_binary_round_aux (s : bool) (M E : Z) (l : location) :
  signbit (binary_round_aux 53 1024 s M E l) = Some s \/
  signbit (binary_round_aux 53 1024 s M E l) = None.
Proof.
  unfold binary_round_aux.
  destruct (shr_fexp 53 1024 M E l) as [r1 e1].
  destruct (shr_fexp 53 1024 _ e1 loc_Exact) as [r2 e2].
  destruct (shr_m r2); [left; reflexivity | | right; reflexivity].
  destruct (e2 <=? 1024 - 53); left; reflexivity.
Qed.

Lemma mul_not_negative (x : number) (m : positive) (e : Z) :
  signbit x <> Some true -> signbit (mul x (S754_finite false m e)) <> Some true.
Proof.
  intros Hx. destruct x as [[|]|[|]| |[|] mx ex]; try (exfalso; apply Hx; reflexivity);
    try discriminate.
  unfold mul, SFmul. cbn [xorb].
  destruct (signbit_binary_round_aux false (Z.pos (mx * m)) (ex + e) loc_Exact) as [H | H];
    unfold prec, emax; rewrite H; discriminate.
Qed.

Lemma Math_ceil_not_negative (x : number) (L : Z) :
  signbit x <> Some true -> Math_ceil x = Some L -> 0 <= L.
Proof.
  intros Hx. destruct x as [[|]|[|]| |[|] m e]; try (exfalso; apply Hx; reflexivity);
    try discriminate; try (intros [= <-]; lia).
  unfold Math_ceil. cbn [negb cond_Zopp]. intros [= <-].
  enough (Z.shiftl (- Z.pos m) e < 0) by lia.
  destruct (Z.lt_ge_cases (Z.shiftl (- Z.pos m) e) 0) as [H | H]; [exact H|].
  apply Z.shiftl_nonneg in H. lia.
Qed.

Lemma Math_ceil_positive (x : number) (L : Z) :
  Math_ceil x = Some L -> 0 < L -> exists m e, x = S754_finite false m e.
Proof.
  destruct x as [[|]|[|]| |[|] m e]; try discriminate; try (intros [= <-]; lia).
  - unfold Math_ceil. cbn [negb cond_Zopp]. intros [= <-] HL.
    assert (0 <= Z.shiftl (Z.pos m) e) by (apply Z.shiftl_nonneg; lia). lia.
  - intros _ _. eauto.
Qed.

Lemma frameCount_nonneg (tracks : list AudioTrack) (L : Z) :
  frameCount tracks = Some L -> 0 <= L.
Proof.
  unfold frameCount. apply Math_ceil_not_negative.
  change (of_Z SAMPLE_RATE) with (S754_finite false 6061057848115200 (-37)).
  apply mul_not_negative, totalDuration_not_negative.
Qed.

Lemma outputLength_to_length (tracks : list AudioTrack) :
  outputLength tracks = to_length (frameCount tracks).
Proof. reflexivity. Qed.

Lemma mixAudioTracks_wf (tracks : list AudioTrack) :
  tracks <> [] -> Forall track_ok tracks ->
  match frameCount tracks with
  | Some L =>
      0 <= L /\
      (L = 0 -> mixAudioTracks tracks = None) /\
      (0 < L < 2 ^ 32 ->
       exists out,
         mixAudioTracks tracks = Some out /\
         AudioBuffer.wf out /\
         AudioBuffer.numberOfChannels out = 2 /\
         AudioBuffer.sampleRate out = SAMPLE_RATE /\
         AudioBuffer.length out = L)
  | None => mixAudioTracks tracks = None
  end.
Proof.
  intros Hne Hok. destruct (frameCount tracks) as [L|] eqn:HL.
  - split; [eapply frameCount_nonneg; exact HL|]. split.
    + intros ->. rewrite mixAudioTracks_closed_form by assumption.
      rewrite outputLength_to_length, HL. reflexivity.
    + intros Hr. eexists. split; [apply mixAudioTracks_frames; eassumption|].
      cbn [AudioBuffer.numberOfChannels AudioBuffer.sampleRate AudioBuffer.length].
      split; [|repeat split].
      split; [reflexivity|]. cbn [AudioBuffer.channelData AudioBuffer.length].
      repeat constructor; rewrite length_map, length_seq; lia.
  - rewrite mixAudioTracks_closed_form by assumption.
    rewrite outputLength_to_length, HL. reflexivity.
Qed.

(** ** Export *)

Lemma prepareMergedAudio_returns (s : App.State) (out : AudioBuffer.t) :
  cache_current s -> App.audioContextRef s = true -> App.tracks s <> [] ->
  mixAudioTracks (App.tracks s) = Some out ->
  (App.prepareMergedAudio s).1 = Some out.
Proof.
  unfold App.prepareMergedAudio, cache_current. intros Hs Hctx Hne Hmix.
  rewrite Hctx. cbn [negb orb].
  destruct (bool_decide_reflect (App.tracks s = [])) as [He | _]; [contradiction|].
  destruct (App.mergedBufferRef s) as [b|].
  - destruct Hs as [Hs | Hs]; [contradiction|]. cbn. congruence.
  - rewrite Hmix. reflexivity.
Qed.


Lemma handleDownload_outcome (s : App.State) :
  cache_current s ->
  (App.handleDownload s).1 =
  if App.audioContextRef s && negb (bool_decide (App.tracks s = []))
  then mixAudioTracks (App.tracks s) ≫= audioBufferToWav
  else None.
Proof.
  intros Hs. unfold App.handleDownload, App.prepareMergedAudio. cbn [fst].
  destruct (App.audioContextRef s); cbn [negb orb andb]; [|reflexivity].
  destruct (bool_decide_reflect (App.tracks s = [])) as [He | Hne]; [reflexivity|].
  cbn [negb]. unfold cache_current in Hs.
  destruct (App.mergedBufferRef s) as [b|].
  - destruct Hs as [Hs | Hs]; [contradiction|]. rewrite Hs. reflexivity.
  - destruct (mixAudioTracks (App.tracks s)); reflexivity.
Qed.

Lemma handleDownload_mix (s : App.State) (L : Z) :
  cache_current s -> App.audioContextRef s = true -> App.tracks s <> [] ->
  Forall track_ok (App.tracks s) ->
  frameCount (App.tracks s) = Some L -> 0 < L -> 4 * L + 44 < 2 ^ 32 ->
  exists out wav,
    mixAudioTracks (App.tracks s) = Some out /\
    (App.handleDownload s).1 = Some wav /\
    wav = wavHeader 2 (L * 2 * 2 + 44) SAMPLE_RATE 0 ++ wavData out /\
    Z.of_nat (List.length wav) = 4 * L + 44 /\
    WavHeader.channels wav = 2 /\
    WavHeader.sampleRate wav = SAMPLE_RATE /\
    WavHeader.bitsPerSample wav = 16.
Proof.
  intros Hs Hctx Hne Hok HL HL0 HL1.
  pose proof (mixAudioTracks_wf _ Hne Hok) as Hwf. rewrite HL in Hwf.
  destruct Hwf as (_ & _ & Hwf).
  destruct Hwf as (out & Hmix & [HN Hwf] & HN2 & HR & HLen); [lia|].
  exists out. eexists. split; [exact Hmix|].
  unfold App.handleDownload. cbn [fst].
  rewrite (prepareMergedAudio_returns s out Hs Hctx Hne Hmix). cbn [mbind option_bind].
  rewrite audioBufferToWav_closed_form by (assumption || lia).
  rewrite HN2, HR, HLen.
  split; [reflexivity|]. split; [reflexivity|].
  split.
  - rewrite length_app, length_wavData, length_wavHeader, HN2, HLen. lia.
  - destruct (wavHeader_fields 2 (L * 2 * 2 + 44) SAMPLE_RATE 0 (wavData out))
      as (Hc & Hr & Hb & _).
    split; [exact Hc|]. split; [exact Hr | exact Hb].
Qed.

Lemma handleDownload_empty (s : App.State) :
  App.tracks s = [] -> (App.handleDownload s).1 = None.
Proof.
  intros He. unfold App.handleDownload, App.prepareMergedAudio. rewrite He.
  rewrite orb_true_r. reflexivity.
Qed.

(** ** The track editor and the timeline *)

Lemma edited_start_time (parsed : number) :
  let t := Math_max zero (TrackItem.startTimeInput parsed) in
  leb zero t = true /\ (t = zero \/ t = parsed).
Proof.
  cbv zeta. destruct parsed as [[|]|[|]| |[|] m e]; cbn;
    (split; [reflexivity | (left; reflexivity) || (right; reflexivity)]).
Qed.

Lemma Math_max_zero_not_negative (x : number) :
  Math_max zero x = NaN \/ leb zero (Math_max zero x) = true.
Proof. destruct x as [[|]|[|]| |[|] m e]; cbn; auto. Qed.

Lemma updateTrackStartTime_tracks (i : string) (newTime : number) (s : App.State) :
  Forall2 (fun t t' =>
             id t' = id t /\ buffer t' = buffer t /\ duration t' = duration t /\
             if decide (id t = i)
             then startTime t' = Math_max zero newTime
             else startTime t' = startTime t)
    (App.tracks s) (App.tracks (App.updateTrackStartTime i newTime s)).
Proof.
  unfold App.updateTrackStartTime.
  destruct (setTracks_cases
              (map (fun t => if decide (id t = i)
                             then mkTrack (id t) (buffer t) (duration t)
                                    (Math_max zero newTime)
                             else t)) s) as [-> _].
  induction (App.tracks s) as [|t rest IH]; cbn [map]; constructor; [|exact IH].
  destruct (decide (id t = i)); cbn; repeat split; reflexivity.
Qed.

Lemma safeDuration_at_least_one (x : number) :
  match x with
  | S754_nan => Timeline.safeDuration x = NaN
  | _ => leb (of_Z 1) (Timeline.safeDuration x) = true
  end.
Proof.
  unfold Timeline.safeDuration.
  change (of_Z 1) with (S754_finite false 4503599627370496 (-52)).
  destruct x as [[|]|[|]| |[|] m e];
    [reflexivity | reflexivity | reflexivity | reflexivity | reflexivity | reflexivity |].
  unfold Math_max, leb, SFleb. cbn [SFcompare].
  destruct (Z.compare e (-52)) eqn:He.
  - apply Z.compare_eq in He. subst e.
    destruct (Pos.compare_cont Eq m 4503599627370496) eqn:Hm.
    + apply Pos.compare_eq in Hm. subst m. reflexivity.
    + reflexivity.
    + assert (Hq : Pos.compare_cont Eq 4503599627370496 m = Lt).
      { change (Pos.compare 4503599627370496 m = Lt).
        rewrite Pos.compare_antisym. unfold Pos.compare. rewrite Hm. reflexivity. }
      cbn [SFcompare]. rewrite Z.compare_refl, Hq. reflexivity.
  - reflexivity.
  - cbn [SFcompare]. rewrite Z.compare_antisym, He. reflexivity.
Qed.

(** ** Failure, maximum and overlap *)

Lemma mixChannel_no_channel (t : AudioTrack) (c : nat) (out : AudioBuffer.t) :
  AudioBuffer.numberOfChannels (buffer t) <= 0 -> mixChannel t c out = None.
Proof.
  intros Hn. unfold mixChannel.
  destruct (AudioBuffer.getChannelData out c); [|reflexivity]. cbn [mbind option_bind].
  unfold AudioBuffer.getChannelData, sourceChannel.
  destruct (Z.ltb_spec (Z.of_nat c) (AudioBuffer.numberOfChannels (buffer t))); [lia|].
  destruct (Z.ltb_spec (Z.of_nat 0) (AudioBuffer.numberOfChannels (buffer t))); [lia|].
  reflexivity.
Qed.

Lemma mixTrack_no_channel (t : AudioTrack) (L r : Z) (a0 a1 : Float32Array) :
  AudioBuffer.numberOfChannels (buffer t) <= 0 ->
  mixTrack t (AudioBuffer.mk 2 L r [a0; a1]) = None.
Proof.
  intros Hn. unfold mixTrack. cbn [AudioBuffer.numberOfChannels].
  change (Z.to_nat 2) with 2%nat. cbn [seq for_each].
  rewrite mixChannel_no_channel by exact Hn. reflexivity.
Qed.

Lemma mixTrack_shape (t : AudioTrack) (L r : Z) (a0 a1 : Float32Array) :
  mixTrack t (AudioBuffer.mk 2 L r [a0; a1]) = None \/
  exists a0' a1', mixTrack t (AudioBuffer.mk 2 L r [a0; a1])
                  = Some (AudioBuffer.mk 2 L r [a0'; a1']).
Proof.
  unfold mixTrack. cbn [AudioBuffer.numberOfChannels].
  change (Z.to_nat 2) with 2%nat. cbn [seq for_each].
  unfold mixChannel.
  destruct (AudioBuffer.getChannelData (buffer t) (sourceChannel t 0)) as [d0|];
    [|left; reflexivity].
  destruct (AudioBuffer.getChannelData (buffer t) (sourceChannel t 1)) as [d1|];
    [|left; reflexivity].
  right. eexists _, _. reflexivity.
Qed.

Lemma mixTracks_no_channel (tracks : list AudioTrack) (L r : Z) (a0 a1 : Float32Array) :
  Exists (fun t => AudioBuffer.numberOfChannels (buffer t) <= 0) tracks ->
  mixTracks tracks (AudioBuffer.mk 2 L r [a0; a1]) = None.
Proof.
  intros Hex. revert a0 a1. induction Hex as [t rest Ht | t rest _ IH]; intros a0 a1;
    cbn [mixTracks].
  - rewrite mixTrack_no_channel by exact Ht. reflexivity.
  - destruct (mixTrack_shape t L r a0 a1) as [-> | (a0' & a1' & ->)]; [reflexivity|].
    cbn [mbind option_bind]. apply IH.
Qed.

Lemma leb_of_key (a b : number) :
  a <> NaN -> b <> NaN -> ~ key_lt (order_key b) (order_key a) -> leb a b = true.
Proof.
  unfold key_lt, leb, SFleb.
  destruct a as [[|]|[|]| |[|] ma ea], b as [[|]|[|]| |[|] mb eb]; cbn;
    intros Ha Hb H; try reflexivity; try (exfalso; apply Ha; reflexivity);
    try (exfalso; apply Hb; reflexivity); try (exfalso; lia);
    change (Pos.compare_cont Eq ma mb) with (Pos.compare ma mb);
    destruct (Z.compare_spec ea eb) as [-> | He | He]; cbn; try reflexivity; try lia;
    destruct (Pos.compare_spec ma mb) as [-> | Hm | Hm]; cbn; try reflexivity; lia.
Qed.

Lemma Math_max_not_NaN (a b : number) : a <> NaN -> b <> NaN -> Math_max a b <> NaN.
Proof. intros Ha Hb. destruct (Math_max_spec a b) as [[_ ->] | [_ ->]]; assumption. Qed.

Lemma fold_max_bounds (tracks : list AudioTrack) (acc : number) :
  acc <> NaN -> Forall (fun t => endTime t <> NaN) tracks ->
  let total := fold_left (fun max track => Math_max max (endTime track)) tracks acc in
  total <> NaN /\
  ~ key_lt (order_key total) (order_key acc) /\
  Forall (fun t => ~ key_lt (order_key total) (order_key (endTime t))) tracks /\
  (total = acc \/ exists t, t ∈ tracks /\ total = endTime t).
Proof.
  cbv zeta. intros Hacc Hf. revert acc Hacc.
  induction Hf as [|t rest Ht _ IH]; intros acc Hacc; cbn [fold_left].
  - repeat split; [assumption | unfold key_lt; lia | constructor | left; reflexivity].
  - destruct (IH (Math_max acc (endTime t)) (Math_max_not_NaN _ _ Hacc Ht))
      as (Hn & Hge & Hall & Hwho).
    set (total := fold_left _ rest _) in *.
    assert (Hstep : ~ key_lt (order_key (Math_max acc (endTime t))) (order_key acc) /\
                    ~ key_lt (order_key (Math_max acc (endTime t))) (order_key (endTime t))).
    { destruct (Math_max_spec acc (endTime t)) as [[Hlt ->] | [Hlt ->]];
        unfold key_lt in *; lia. }
    split; [exact Hn|]. split; [unfold key_lt in *; lia|].
    split.
    + constructor; [unfold key_lt in *; lia | exact Hall].
    + destruct Hwho as [Hw | (u & Hu & Hw)].
      * destruct (Math_max_spec acc (endTime t)) as [[_ E] | [_ E]]; rewrite E in Hw.
        -- right. exists t. split; [left | exact Hw].
        -- left. exact Hw.
      * right. exists u. split; [right; exact Hu | exact Hw].
Qed.

Lemma totalDuration_is_max (tracks : list AudioTrack) :
  Forall (fun t => endTime t <> NaN) tracks ->
  leb zero (totalDuration tracks) = true /\
  Forall (fun t => leb (endTime t) (totalDuration tracks) = true) tracks /\
  (totalDuration tracks = zero \/ exists t, t ∈ tracks /\ totalDuration tracks = endTime t).
Proof.
  intros Hf.
  destruct (fold_max_bounds tracks zero) as (Hn & Hge & Hall & Hwho);
    [discriminate | exact Hf |].
  fold (totalDuration tracks) in *.
  split; [apply leb_of_key; [discriminate | exact Hn | exact Hge]|].
  split; [|exact Hwho].
  rewrite Forall_forall in *. intros t Ht.
  apply leb_of_key; [apply Hf, Ht | exact Hn | apply Hall, Ht].
Qed.

Lemma mixedSample_two (a b : AudioTrack) (c k : nat) :
  AudioBuffer.float32_samples (buffer a) ->
  mixedSample [a; b] c k =
  match trackSample a c k, trackSample b c k with
  | Some va, Some vb => Math_fround (add (plus_zero va) vb)
  | Some va, None => plus_zero va
  | None, Some vb => Math_fround (add zero vb)
  | None, None => zero
  end.
Proof.
  intros Ha. unfold mixedSample, mixedFrom. cbn [fold_left].
  destruct (trackSample a c k) as [va|] eqn:Hva.
  - rewrite mixInto_zero by (eapply trackSample_float32; eassumption).
    destruct (trackSample b c k); reflexivity.
  - destruct (trackSample b c k); reflexivity.
Qed.

(** ** Layout of the file *)

Lemma wavHeader_layout (N len rate pos : Z) (data : list byte) :
  let wav := wavHeader N len rate pos ++ data in
  take 4 wav = [82; 73; 70; 70] /\
  DataView.getUint32 wav 4 = (len - 8) mod 2 ^ 32 /\
  take 8 (drop 8 wav) = [87; 65; 86; 69; 102; 109; 116; 32] /\
  DataView.getUint32 wav 16 = 16 /\
  DataView.getUint16 wav 20 = 1 /\
  DataView.getUint32 wav 28 = (rate * 2 * N) mod 2 ^ 32 /\
  DataView.getUint16 wav 32 = (N * 2) mod 2 ^ 16 /\
  take 4 (drop 36 wav) = [100; 97; 116; 97].
Proof.
  cbv zeta. unfold DataView.getUint16, DataView.getUint32, wavHeader.
  change (Z.to_nat 4) with 4%nat. change (Z.to_nat 16) with 16%nat.
  change (Z.to_nat 20) with 20%nat. change (Z.to_nat 28) with 28%nat.
  change (Z.to_nat 32) with 32%nat.
  cbn [le_bytes app drop take].
  split; [reflexivity|].
  split; [exact (le_value_le_bytes 4 (len - 8))|].
  split; [reflexivity|].
  split; [reflexivity|].
  split; [reflexivity|].
  split; [exact (le_value_le_bytes 4 (rate * 2 * N))|].
  split; [exact (le_value_le_bytes 2 (N * 2))|].
  reflexivity.
Qed.

Lemma getInt16_at (hdr data : list byte) (j : nat) (v : Z) :
  List.length hdr = 44%nat ->
  take 2 (drop (j * 2) data) = le_bytes 2 v ->
  - 2 ^ 15 <= v < 2 ^ 15 ->
  DataView.getInt16 (hdr ++ data) (44 + 2 * Z.of_nat j) = v.
Proof.
  intros Hh Hd Hv. unfold DataView.getInt16, DataView.getUint16.
  replace (Z.to_nat (44 + 2 * Z.of_nat j)) with (List.length hdr + j * 2)%nat by lia.
  rewrite drop_app_add, Hd.
  pose proof (getInt16_le_bytes v [] Hv) as H. cbv zeta in H.
  rewrite app_nil_r in H. exact H.
Qed.

Lemma trackSample_past (t : AudioTrack) (c k : nat) (start : Z) (data : list number) :
  startSample t = Some start ->
  AudioBuffer.getChannelData (buffer t) (sourceChannel t c) = Some data ->
  start + Z.of_nat (List.length data) <= Z.of_nat k ->
  trackSample t c k = None.
Proof.
  intros Hs Hd Hk. unfold trackSample. rewrite Hs, Hd. cbn.
  destruct (start <=? Z.of_nat k); [|reflexivity].
  apply lookup_ge_None_2. lia.
Qed.

(** ** The words of the specification: maximum, floor and ceiling *)






Lemma mul_finite_positive (x : number) (mr : positive) (er : Z) (m' : positive) (e' : Z) :
  mul x (S754_finite false mr er) = S754_finite false m' e' ->
  exists m e, x = S754_finite false m e.
Proof.
  destruct x as [[|]|[|]| |[|] m e]; try discriminate; [|eauto].
  unfold mul, SFmul. cbn [xorb]. intros H.
  destruct (signbit_binary_round_aux true (Z.pos (m * mr)) (e + er) loc_Exact) as [Hs | Hs];
    unfold prec, emax in H; rewrite H in Hs; discriminate.
Qed.





(** ** Passthrough, allocation and placement, and the order of the tracks *)

Lemma frameCount_single (t : AudioTrack) (s : bool) (L : Z) :
  startTime t = S754_zero s ->
  Math_ceil (mul (duration t) (of_Z SAMPLE_RATE)) = Some L -> 0 < L ->
  frameCount [t] = Some L.
Proof.
  intros Hs HL H0.
  destruct (Math_ceil_positive _ _ HL H0) as (m' & e' & Hmul).
  change (of_Z SAMPLE_RATE) with (S754_finite false 6061057848115200 (-37)) in Hmul.
  destruct (mul_finite_positive _ _ _ _ _ Hmul) as (m & e & Hfin).
  unfold frameCount, totalDuration. cbn [fold_left]. rewrite Hs, Hfin in *.
  destruct s; exact HL.
Qed.




(** C5.  For a single track [T] that starts at 0, with binary32 samples and
    a frame count [L = ceil (T.duration * SAMPLE_RATE)] in [1, 2^32), the mix
    has [L] samples per channel and, at every index of the output, both
    output channels hold the sample of [T]'s channel 0 when [T] is mono, and
    output channel [c] holds the sample of [T]'s channel [c] otherwise; past
    the end of [T]'s data the output is zero.  A sample that is the negative
    zero is stored as [+0] (the sum [0 + -0]), the same number. *)
Theorem mix_single_track_passthrough (T : AudioTrack) (s : bool) (L : Z) :
  track_ok T -> AudioBuffer.float32_samples (buffer T) ->
  startTime T = S754_zero s ->
  Math_ceil (mul (duration T) (of_Z SAMPLE_RATE)) = Some L -> 0 < L < 2 ^ 32 ->
  exists out0 out1,
    mixAudioTracks [T] = Some (AudioBuffer.mk 2 L SAMPLE_RATE [out0; out1]) /\
    List.length out0 = Z.to_nat L /\ List.length out1 = Z.to_nat L /\
    forall c out k,
      [out0; out1] !! c = Some out -> (k < Z.to_nat L)%nat ->
      exists src,
        AudioBuffer.channelData (buffer T)
          !! (if decide (AudioBuffer.numberOfChannels (buffer T) = 1) then 0%nat else c)
        = Some src /\
        out !! k = Some match src !! k with
                        | Some v => plus_zero v
                        | None => zero
                        end.
Proof.
  intros Hok Hf Hs HL Hr.
  destruct (mixAudioTracks_lookup [T] L) as (out0 & out1 & Hmix & H0 & H1 & Hout);
    [discriminate | repeat (constructor; try assumption)
    | apply (frameCount_single T s L Hs HL); lia | exact Hr |].
  exists out0, out1. repeat (split; [assumption|]).
  intros c out k Hc Hk.
  assert (Hc2 : (c < 2)%nat) by (apply lookup_lt_Some in Hc; exact Hc).
  destruct (track_ok_source T c Hok) as [src Hsrc].
  exists src. split; [rewrite <- sourceChannel_data by assumption; exact Hsrc|].
  rewrite (Hout c out k Hc Hk). f_equal.
  unfold mixedSample, mixedFrom. cbn [fold_left].
  assert (Hts : trackSample T c k = src !! k).
  { rewrite <- (trackSample_at T c k 0 src (startSample_zero T s Hs)) by (lia || assumption).
    reflexivity. }
  rewrite Hts. destruct (src !! k) as [v|] eqn:Hv; [|reflexivity].
  apply mixInto_zero. eapply trackSample_float32; [exact Hf | rewrite Hts; reflexivity].
Qed.

Lemma mix_single_track_passthrough_witness :
  exists out0 out1,
    mixAudioTracks [demoTrack "a" demoStereo (S754_zero true)]
      = Some (AudioBuffer.mk 2 2 SAMPLE_RATE [out0; out1]) /\
    List.length out0 = 2%nat /\ List.length out1 = 2%nat /\
    forall c out k,
      [out0; out1] !! c = Some out -> (k < 2)%nat ->
      exists src,
        AudioBuffer.channelData demoStereo !! c = Some src /\
        out !! k = Some match src !! k with
                        | Some v => plus_zero v
                        | None => zero
                        end.
Proof.
  apply (mix_single_track_passthrough (demoTrack "a" demoStereo (S754_zero true)) true 2).
  - split; [split; [reflexivity | repeat constructor] | cbn; lia].
  - repeat constructor.
  - reflexivity.
  - vm_compute. reflexivity.
  - lia.
Defined.



Lemma mixAudioTracks_permutation (l l' : list AudioTrack) :
  Permutation l l' ->
  Forall track_ok l ->
  Forall (fun t => AudioBuffer.float32_samples (buffer t)) l ->
  match mixAudioTracks l, mixAudioTracks l' with
  | Some out, Some out' =>
      AudioBuffer.numberOfChannels out' = AudioBuffer.numberOfChannels out /\
      AudioBuffer.length out' = AudioBuffer.length out /\
      AudioBuffer.sampleRate out' = AudioBuffer.sampleRate out /\
      List.length (AudioBuffer.channelData out') = List.length (AudioBuffer.channelData out) /\
      (forall c data data' k,
         AudioBuffer.channelData out !! c = Some data ->
         AudioBuffer.channelData out' !! c = Some data' ->
         List.length data' = List.length data /\
         ((List.length (contributions l c k) <= 2)%nat -> data' !! k = data !! k)) /\
      ((forall c k, (c < 2)%nat -> (List.length (contributions l c k) <= 2)%nat) ->
       out' = out)
  | None, None => True
  | _, _ => False
  end.
Proof.
  intros HP Hok Hf.
  destruct l as [|t l0].
  { apply Permutation_nil in HP. subst l'.
    destruct (mixAudioTracks []) as [out|]; [|exact I].
    repeat (split; [reflexivity|]). split; [|reflexivity].
    intros c data data' k Hd Hd'. rewrite Hd in Hd'. injection Hd' as <-.
    split; reflexivity. }
  assert (Hne' : l' <> []).
  { intros ->. apply Permutation_sym, Permutation_nil in HP. discriminate. }
  assert (Hok' : Forall track_ok l').
  { eapply Permutation_Forall; eassumption. }
  pose proof (mixAudioTracks_pairwise_overlap _ _ HP Hok Hf) as Hall.
  rewrite !mixAudioTracks_closed_form in * by (assumption || discriminate).
  rewrite (outputLength_permutation _ _ HP) in *.
  destruct (0 <? outputLength l'); [|exact I].
  cbn [AudioBuffer.numberOfChannels AudioBuffer.length AudioBuffer.sampleRate
       AudioBuffer.channelData].
  repeat (split; [reflexivity|]). split.
  - intros c data data' k Hd Hd'.
    assert (Hdata : data = map (mixedSample (t :: l0) c) (seq 0 (Z.to_nat (outputLength l')))
                    /\ data' = map (mixedSample l' c) (seq 0 (Z.to_nat (outputLength l')))).
    { destruct c as [|[|c]]; cbn in Hd, Hd'; [| |discriminate];
        injection Hd as <-; injection Hd' as <-; split; reflexivity. }
    destruct Hdata as [-> ->]. rewrite !length_map. split; [reflexivity|].
    intros Hpair. rewrite !list_lookup_fmap.
    destruct (seq 0 (Z.to_nat (outputLength l')) !! k) as [j|] eqn:Hj; [|reflexivity].
    apply lookup_seq in Hj as [-> _]. cbn [fmap option_fmap option_map]. f_equal.
    symmetry. apply mixedSample_permutation; assumption.
  - intros Hpair. specialize (Hall Hpair). injection Hall as H0 H1.
    rewrite H0, H1. reflexivity.
Qed.

(** C3, amended.  For two orders of the same tracks (whose buffers have a
    first channel and binary32 samples), the mixer raises in both, or it
    returns buffers of the same shape (channels, length, sample rate) that
    hold the same value at every sample index where at most two of the
    tracks have a sample; when that is so at every index, the two buffers
    are equal.  Only where three or more tracks overlap can the stored value
    depend on the order, through the rounding of each partial sum. *)
Theorem mix_any_order_where_at_most_two_overlap (l l' : list AudioTrack) :
  Permutation l l' ->
  Forall track_ok l ->
  Forall (fun t => AudioBuffer.float32_samples (buffer t)) l ->
  match mixAudioTracks l, mixAudioTracks l' with
  | Some out, Some out' =>
      AudioBuffer.numberOfChannels out' = AudioBuffer.numberOfChannels out /\
      AudioBuffer.length out' = AudioBuffer.length out /\
      AudioBuffer.sampleRate out' = AudioBuffer.sampleRate out /\
      List.length (AudioBuffer.channelData out') = List.length (AudioBuffer.channelData out) /\
      (forall c data data' k,
         AudioBuffer.channelData out !! c = Some data ->
         AudioBuffer.channelData out' !! c = Some data' ->
         List.length data' = List.length data /\
         ((List.length (contributions l c k) <= 2)%nat -> data' !! k = data !! k)) /\
      ((forall c k, (c < 2)%nat -> (List.length (contributions l c k) <= 2)%nat) ->
       out' = out)
  | None, None => True
  | _, _ => False
  end.
Proof. apply mixAudioTracks_permutation. Qed.

Lemma mix_any_order_where_at_most_two_overlap_witness :
  match mixAudioTracks overlapAtStart, mixAudioTracks (rev overlapAtStart) with
  | Some out, Some out' =>
      AudioBuffer.numberOfChannels out' = AudioBuffer.numberOfChannels out /\
      AudioBuffer.length out' = AudioBuffer.length out /\
      AudioBuffer.sampleRate out' = AudioBuffer.sampleRate out /\
      List.length (AudioBuffer.channelData out') = List.length (AudioBuffer.channelData out) /\
      (forall c data data' k,
         AudioBuffer.channelData out !! c = Some data ->
         AudioBuffer.channelData out' !! c = Some data' ->
         List.length data' = List.length data /\
         ((List.length (contributions overlapAtStart c k) <= 2)%nat ->
          data' !! k = data !! k)) /\
      ((forall c k, (c < 2)%nat ->
                    (List.length (contributions overlapAtStart c k) <= 2)%nat) ->
       out' = out)
  | None, None => True
  | _, _ => False
  end.
Proof.
  apply (mix_any_order_where_at_most_two_overlap overlapAtStart (rev overlapAtStart)).
  - apply Permutation_rev.
  - repeat constructor; cbn; lia.
  - repeat constructor.
Defined.

(** ** The encoded file *)

(** The encoder returns the 44 bytes of the header followed by the sample
    data: the frames in order, and in each frame one little-endian 16-bit
    sample per channel, in channel order. *)
Theorem audioBufferToWav_header_then_frames (b : AudioBuffer.t) :
  AudioBuffer.numberOfChannels b = Z.of_nat (List.length (AudioBuffer.channelData b)) ->
  0 <= AudioBuffer.length b ->
  audioBufferToWav b =
  Some (wavHeader (AudioBuffer.numberOfChannels b)
          (AudioBuffer.length b * AudioBuffer.numberOfChannels b * 2 + 44)
          (AudioBuffer.sampleRate b) 0
        ++ concat (map (fun pos =>
                     concat (map (fun i => le_bytes 2 (sampleToInt16 (sampleAt b i pos)))
                               (seq 0 (Z.to_nat (AudioBuffer.numberOfChannels b)))))
                   (seq 0 (Z.to_nat (AudioBuffer.length b))))).
Proof. apply audioBufferToWav_closed_form. Qed.

Lemma audioBufferToWav_header_then_frames_witness :
  audioBufferToWav demoStereo =
  Some (wavHeader 2 52 44100 0
        ++ le_bytes 2 16383 ++ le_bytes 2 24575 ++ le_bytes 2 (-8191) ++ le_bytes 2 0).
Proof.
  rewrite (audioBufferToWav_header_then_frames demoStereo); [reflexivity | reflexivity |].
  cbn. lia.
Defined.

(** When the sizes fit their fields, every field of the header reads back as
    the format defines it from the buffer: the tags RIFF, WAVE, fmt and data,
    the file length less 8, a format chunk of 16 bytes for PCM (1), the
    channel count, the sample rate, the byte rate
    [sampleRate * 2 * channels], the block size [channels * 2] and 16 bits
    per sample. *)
Theorem wav_header_reads_back (b : AudioBuffer.t) (wav : list byte) :
  audioBufferToWav b = Some wav ->
  AudioBuffer.numberOfChannels b = Z.of_nat (List.length (AudioBuffer.channelData b)) ->
  0 <= AudioBuffer.length b ->
  AudioBuffer.numberOfChannels b < 2 ^ 15 ->
  0 <= AudioBuffer.sampleRate b < 2 ^ 32 ->
  AudioBuffer.sampleRate b * 2 * AudioBuffer.numberOfChannels b < 2 ^ 32 ->
  Z.of_nat (List.length wav) < 2 ^ 32 ->
  take 4 wav = [82; 73; 70; 70] /\
  DataView.getUint32 wav 4 = Z.of_nat (List.length wav) - 8 /\
  take 8 (drop 8 wav) = [87; 65; 86; 69; 102; 109; 116; 32] /\
  DataView.getUint32 wav 16 = 16 /\
  DataView.getUint16 wav 20 = 1 /\
  WavHeader.channels wav = AudioBuffer.numberOfChannels b /\
  WavHeader.sampleRate wav = AudioBuffer.sampleRate b /\
  DataView.getUint32 wav 28 = AudioBuffer.sampleRate b * 2 * AudioBuffer.numberOfChannels b /\
  DataView.getUint16 wav 32 = AudioBuffer.numberOfChannels b * 2 /\
  WavHeader.bitsPerSample wav = 16 /\
  take 4 (drop 36 wav) = [100; 97; 116; 97].
Proof.
  intros Hwav HN HL HN15 HR HBR Hlen.
  rewrite audioBufferToWav_closed_form in Hwav by assumption.
  apply (inj Some) in Hwav. subst wav.
  rewrite length_app, length_wavData, length_wavHeader in Hlen |- *.
  set (N := AudioBuffer.numberOfChannels b) in *.
  set (L := AudioBuffer.length b) in *.
  assert (HN0 : 0 <= N) by lia.
  assert (HLN : 0 <= L * N) by (apply Z.mul_nonneg_nonneg; lia).
  assert (Htot : Z.of_nat (44 + Z.to_nat L * (Z.to_nat N * 2)) = L * N * 2 + 44).
  { rewrite Nat2Z.inj_add, !Nat2Z.inj_mul, !Z2Nat.id by lia. cbn. lia. }
  rewrite Htot in *.
  destruct (wavHeader_layout N (L * N * 2 + 44) (AudioBuffer.sampleRate b) 0 (wavData b))
    as (H0 & H4 & H8 & H16 & H20 & H28 & H32 & H36).
  destruct (wavHeader_fields N (L * N * 2 + 44) (AudioBuffer.sampleRate b) 0 (wavData b))
    as (H22 & H24 & H34 & _).
  assert (HRN : 0 <= AudioBuffer.sampleRate b * 2 * N).
  { apply Z.mul_nonneg_nonneg; lia. }
  rewrite Z.mod_small in H4, H22, H24, H28, H32 by lia.
  split; [exact H0|]. split; [exact H4|]. split; [exact H8|]. split; [exact H16|].
  split; [exact H20|]. split; [exact H22|]. split; [exact H24|]. split; [exact H28|].
  split; [exact H32|]. split; [exact H34 | exact H36].
Qed.

Lemma wav_header_reads_back_witness :
  exists wav,
    audioBufferToWav demoStereo = Some wav /\
    WavHeader.channels wav = 2 /\ WavHeader.sampleRate wav = 44100 /\
    DataView.getUint32 wav 28 = 176400 /\ DataView.getUint16 wav 32 = 4.
Proof.
  assert (Hwav : audioBufferToWav demoStereo
                 = Some (wavHeader 2 52 44100 0 ++ wavData demoStereo)).
  { apply audioBufferToWav_closed_form; [reflexivity | cbn; lia]. }
  eexists. split; [exact Hwav|].
  destruct (wav_header_reads_back demoStereo _ Hwav)
    as (_ & _ & _ & _ & _ & H22 & H24 & H28 & H32 & _).
  - reflexivity.
  - cbn; lia.
  - cbn; lia.
  - cbn; lia.
  - cbn; lia.
  - rewrite length_app, length_wavData, length_wavHeader. cbn. lia.
  - split; [exact H22|]. split; [exact H24|]. split; [exact H28 | exact H32].
Defined.

(** In the encoder's output the 16-bit sample of channel [i] at frame [pos]
    is at byte offset [44 + 2 * (pos * channels + i)], and read back as a
    signed integer it is the conversion of that sample of the buffer. *)
Theorem wav_sample_reads_back (b : AudioBuffer.t) (wav : list byte) (pos i : nat) :
  audioBufferToWav b = Some wav ->
  AudioBuffer.wf b ->
  Forall (Forall (fun x => valid x = true)) (AudioBuffer.channelData b) ->
  Z.of_nat pos < AudioBuffer.length b ->
  Z.of_nat i < AudioBuffer.numberOfChannels b ->
  DataView.getInt16 wav
    (44 + 2 * (Z.of_nat pos * AudioBuffer.numberOfChannels b + Z.of_nat i))
  = sampleToInt16 (sampleAt b i pos).
Proof.
  intros Hwav [HN Hch] Hvalid Hpos Hi.
  assert (HL : 0 <= AudioBuffer.length b) by lia.
  rewrite audioBufferToWav_closed_form in Hwav by assumption.
  apply (inj Some) in Hwav. subst wav.
  replace (Z.of_nat pos * AudioBuffer.numberOfChannels b + Z.of_nat i)
    with (Z.of_nat (pos * Z.to_nat (AudioBuffer.numberOfChannels b) + i)) by lia.
  apply getInt16_at.
  - apply length_wavHeader.
  - apply wavData_sample; lia.
  - enough (- 32768 <= sampleToInt16 (sampleAt b i pos) <= 32767) by lia.
    apply sampleToInt16_bounds. unfold sampleAt.
    destruct (AudioBuffer.channelData b !! i) as [ch|] eqn:Hc; [|reflexivity].
    cbn. destruct (ch !! pos) as [x|] eqn:Hx; [|reflexivity]. cbn.
    rewrite Forall_lookup in Hvalid. specialize (Hvalid _ _ Hc).
    rewrite Forall_lookup in Hvalid. exact (Hvalid _ _ Hx).
Qed.

Lemma wav_sample_reads_back_witness :
  exists wav,
    audioBufferToWav demoStereo = Some wav /\
    DataView.getInt16 wav (44 + 2 * (1 * 2 + 0))
    = sampleToInt16 (of_dyadic (-1) (-2)).
Proof.
  assert (Hwav : audioBufferToWav demoStereo
                 = Some (wavHeader 2 52 44100 0 ++ wavData demoStereo)).
  { apply audioBufferToWav_closed_form; [reflexivity | cbn; lia]. }
  eexists. split; [exact Hwav|].
  apply (wav_sample_reads_back demoStereo _ 1 0 Hwav).
  - split; [reflexivity | repeat constructor].
  - repeat constructor.
  - cbn; lia.
  - cbn; lia.
Defined.

(** The conversion keeps the sign of the sample: a number with the sign bit
    clear converts to an integer in [0, 32767], one with the sign bit set to
    an integer in [-32768, 0], and NaN converts to 0. *)
Theorem sampleToInt16_keeps_sign (x : number) :
  valid x = true ->
  match signbit x with
  | Some false => 0 <= sampleToInt16 x <= 32767
  | Some true => - 32768 <= sampleToInt16 x <= 0
  | None => sampleToInt16 x = 0
  end.
Proof. apply sampleToInt16_sign. Qed.

Lemma sampleToInt16_keeps_sign_witness :
  - 32768 <= sampleToInt16 (of_dyadic (-3) (-2)) <= 0.
Proof. apply (sampleToInt16_keeps_sign (of_dyadic (-3) (-2))). reflexivity. Defined.

(** ** The mixed buffer *)

(** On a list of tracks (not empty) whose buffers have a first channel, the
    mixer raises when the frame count [Math.ceil(totalDuration * 44100)] is
    not a finite number or is zero (a total duration of zero, a start time
    that is NaN): [createBuffer] rejects the length.  The frame count is
    never negative.  When it lies in [1, 2^32) the mixer returns a buffer,
    and the buffer is well formed: 2 channels at the fixed sample rate, that
    many frames, and channel arrays of that length. *)
Theorem mixAudioTracks_returns_stereo_buffer (tracks : list AudioTrack) :
  tracks <> [] -> Forall track_ok tracks ->
  match frameCount tracks with
  | Some L =>
      0 <= L /\
      (L = 0 -> mixAudioTracks tracks = None) /\
      (0 < L < 2 ^ 32 ->
       exists out,
         mixAudioTracks tracks = Some out /\
         AudioBuffer.wf out /\
         AudioBuffer.numberOfChannels out = 2 /\
         AudioBuffer.sampleRate out = SAMPLE_RATE /\
         AudioBuffer.length out = L)
  | None => mixAudioTracks tracks = None
  end.
Proof. apply mixAudioTracks_wf. Qed.

Lemma mixAudioTracks_returns_stereo_buffer_witness :
  (exists out,
     mixAudioTracks [demoTrack "a" demoMono zero] = Some out /\ AudioBuffer.wf out /\
     AudioBuffer.length out = 3) /\
  mixAudioTracks [demoTrack "a" demoMono NaN] = None /\
  mixAudioTracks [mkTrack "a" demoMono zero zero] = None.
Proof.
  split; [|split].
  - pose proof (mixAudioTracks_returns_stereo_buffer [demoTrack "a" demoMono zero]) as H.
    assert (HL : frameCount [demoTrack "a" demoMono zero] = Some 3)
      by (vm_compute; reflexivity).
    rewrite HL in H.
    destruct H as (_ & _ & H);
      [discriminate | constructor; [apply demoMono_ok | constructor] |].
    destruct H as (out & Hout & Hwf & _ & _ & HLen); [lia|].
    exists out. split; [exact Hout | split; [exact Hwf | exact HLen]].
  - pose proof (mixAudioTracks_returns_stereo_buffer [demoTrack "a" demoMono NaN]) as H.
    assert (HL : frameCount [demoTrack "a" demoMono NaN] = None)
      by (vm_compute; reflexivity).
    rewrite HL in H.
    apply H; [discriminate | constructor; [apply demoMono_ok | constructor]].
  - pose proof (mixAudioTracks_returns_stereo_buffer [mkTrack "a" demoMono zero zero]) as H.
    assert (HL : frameCount [mkTrack "a" demoMono zero zero] = Some 0)
      by (vm_compute; reflexivity).
    rewrite HL in H.
    apply H; [discriminate | constructor; [|constructor] | reflexivity].
    split; [split; [reflexivity | repeat constructor] | cbn; lia].
Defined.

(** The length of the mix does not depend on the order of the tracks,
    however many there are: for two orders of the same tracks the mixer
    raises in both, or returns buffers of the same length. *)
Theorem mix_length_any_order (l l' : list AudioTrack) :
  Permutation l l' -> Forall track_ok l ->
  AudioBuffer.length <$> mixAudioTracks l = AudioBuffer.length <$> mixAudioTracks l'.
Proof.
  intros HP Hok.
  assert (Hok' : Forall track_ok l') by (eapply Permutation_Forall; eassumption).
  destruct l as [|t l0].
  { apply Permutation_nil in HP. subst. reflexivity. }
  assert (Hne' : l' <> []).
  { intros ->. apply Permutation_sym, Permutation_nil in HP. discriminate. }
  rewrite !mixAudioTracks_closed_form by (assumption || discriminate).
  rewrite (outputLength_permutation _ _ HP).
  destruct (0 <? outputLength l'); reflexivity.
Qed.

Lemma mix_length_any_order_witness :
  AudioBuffer.length <$>
    mixAudioTracks [clip "a" (of_Z 1); clip "b" (of_dyadic 1 (-24));
                    clip "c" (of_dyadic 1 (-24))] =
  AudioBuffer.length <$>
    mixAudioTracks [clip "b" (of_dyadic 1 (-24)); clip "c" (of_dyadic 1 (-24));
                    clip "a" (of_Z 1)].
Proof.
  apply mix_length_any_order.
  - eapply perm_trans; [apply perm_swap|]. apply perm_skip, perm_swap.
  - repeat constructor; cbn; lia.
Defined.

(** When no index of the output receives a sample from more than two tracks,
    the mix is the same for every order of the tracks. *)
Theorem mix_any_order_when_overlaps_are_pairwise (l l' : list AudioTrack) :
  Permutation l l' ->
  Forall track_ok l ->
  Forall (fun t => AudioBuffer.float32_samples (buffer t)) l ->
  (forall c k, (c < 2)%nat -> (List.length (contributions l c k) <= 2)%nat) ->
  mixAudioTracks l = mixAudioTracks l'.
Proof. apply mixAudioTracks_pairwise_overlap. Qed.

(** A track whose buffer has no channel makes the mixer raise, wherever the
    track is in the list. *)
Theorem mix_raises_on_track_without_channels (tracks : list AudioTrack) :
  Exists (fun t => AudioBuffer.numberOfChannels (buffer t) <= 0) tracks ->
  mixAudioTracks tracks = None.
Proof.
  intros Hex. unfold mixAudioTracks. destruct tracks as [|t rest].
  - inversion Hex.
  - rewrite createBuffer_stereo. destruct (0 <? _); [|reflexivity].
    cbn [mbind option_bind]. apply mixTracks_no_channel, Hex.
Qed.

Lemma mix_raises_on_track_without_channels_witness :
  mixAudioTracks [demoTrack "a" demoMono zero;
                  mkTrack "b" (AudioBuffer.mk 0 0 44100 []) zero zero] = None.
Proof.
  apply mix_raises_on_track_without_channels.
  right. left. cbn. lia.
Defined.

(** When no track ends at NaN, the duration the mixer uses is not negative,
    it is at least the end [startTime + duration] of every track, and it is
    0 or the end of one of the tracks. *)
Theorem totalDuration_is_the_latest_end (tracks : list AudioTrack) :
  Forall (fun t => endTime t <> NaN) tracks ->
  leb zero (totalDuration tracks) = true /\
  Forall (fun t => leb (endTime t) (totalDuration tracks) = true) tracks /\
  (totalDuration tracks = zero \/ exists t, t ∈ tracks /\ totalDuration tracks = endTime t).
Proof. apply totalDuration_is_max. Qed.

Lemma totalDuration_is_the_latest_end_witness :
  leb zero (totalDuration [demoTrack "a" demoMono (of_Z 2); demoTrack "b" demoStereo zero])
  = true.
Proof.
  apply (totalDuration_is_the_latest_end
           [demoTrack "a" demoMono (of_Z 2); demoTrack "b" demoStereo zero]).
  repeat constructor; vm_compute; discriminate.
Defined.

(** Where two tracks overlap, the output sample is the binary32 sum of their
    two samples, neither scaled nor clipped; where only one of them has a
    sample, it is that sample (for a frame count [L] in [1, 2^32)). *)
Theorem mix_of_two_tracks_is_the_rounded_sum (a b : AudioTrack) (L : Z) :
  track_ok a -> track_ok b -> AudioBuffer.float32_samples (buffer a) ->
  frameCount [a; b] = Some L -> 0 < L < 2 ^ 32 ->
  exists out0 out1,
    mixAudioTracks [a; b] = Some (AudioBuffer.mk 2 L SAMPLE_RATE [out0; out1]) /\
    forall c out k,
      [out0; out1] !! c = Some out -> (k < Z.to_nat L)%nat ->
      out !! k = Some match trackSample a c k, trackSample b c k with
                      | Some va, Some vb => Math_fround (add (plus_zero va) vb)
                      | Some va, None => plus_zero va
                      | None, Some vb => Math_fround (add zero vb)
                      | None, None => zero
                      end.
Proof.
  intros Ha Hb Hfa HL Hr.
  destruct (mixAudioTracks_lookup [a; b] L) as (out0 & out1 & Hmix & _ & _ & Hout);
    [discriminate | repeat (constructor; try assumption) | assumption | assumption |].
  exists out0, out1. split; [exact Hmix|].
  intros c out k Hc Hk. rewrite (Hout c out k Hc Hk).
  rewrite mixedSample_two by assumption. reflexivity.
Qed.

Lemma mix_of_two_tracks_is_the_rounded_sum_witness :
  exists out0 out1,
    mixAudioTracks [clip "a" (of_dyadic 3 (-2)); clip "b" (of_dyadic 3 (-2))]
      = Some (AudioBuffer.mk 2 1 SAMPLE_RATE [out0; out1]) /\
    out0 !! 0%nat = Some (of_dyadic 3 (-1)).
Proof.
  destruct (mix_of_two_tracks_is_the_rounded_sum
              (clip "a" (of_dyadic 3 (-2))) (clip "b" (of_dyadic 3 (-2))) 1)
    as (out0 & out1 & Hmix & Hout).
  - split; [split; [reflexivity | repeat constructor] | cbn; lia].
  - split; [split; [reflexivity | repeat constructor] | cbn; lia].
  - repeat constructor.
  - vm_compute. reflexivity.
  - lia.
  - exists out0, out1. split; [exact Hmix|].
    rewrite (Hout 0%nat out0 0%nat eq_refl); [reflexivity|].
    vm_compute. lia.
Defined.

(** ** The session, the track editor and the timeline *)

Lemma threeClips_pairwise (c k : nat) :
  (c < 2)%nat -> (List.length (contributions threeClips c k) <= 2)%nat.
Proof.
  intros Hc.
  assert (Hpast : forall t, t ∈ threeClips -> (3 <= k)%nat -> trackSample t c k = None).
  { intros t Ht Hk.
    assert (Hcases : exists start data,
               startSample t = Some start /\
               AudioBuffer.getChannelData (buffer t) (sourceChannel t c) = Some data /\
               start + Z.of_nat (List.length data) <= 3).
    { unfold threeClips in Ht.
      repeat (apply elem_of_cons in Ht as [-> | Ht]);
        [| | |apply elem_of_nil in Ht; contradiction];
        destruct c as [|[|c]]; try lia;
        eexists _, _; (split; [vm_compute; reflexivity|]);
        (split; [vm_compute; reflexivity|]); vm_compute; discriminate. }
    destruct Hcases as (start & data & Hs & Hd & Hle).
    eapply trackSample_past; [exact Hs | exact Hd | lia]. }
  destruct (le_lt_dec 3 k) as [Hk | Hk].
  - unfold contributions, threeClips in *. cbn [omap list_omap].
    rewrite !Hpast by (first [assumption | repeat constructor]). cbn. lia.
  - destruct c as [|[|c]]; [| |lia]; destruct k as [|[|[|k]]]; try lia;
      vm_compute; lia.
Qed.

Lemma mix_any_order_when_overlaps_are_pairwise_witness :
  mixAudioTracks threeClips = mixAudioTracks (rev threeClips).
Proof.
  apply mix_any_order_when_overlaps_are_pairwise.
  - apply Permutation_rev.
  - repeat constructor; cbn; lia.
  - repeat constructor.
  - apply threeClips_pairwise.
Defined.

(** In every reachable state in which the effect of the last change of the
    track list has run, [handleDownload] exports what the encoder makes of
    the mix of the current tracks, and nothing when there is no context, no
    track, or the mixer raises.  With a context, at least one track, tracks
    the mixer accepts and a frame count [L] whose file size [4 * L + 44]
    fits the 32-bit length fields of the header, the export is a stereo file
    at the fixed sample rate with 16 bits per sample, of [4 * L + 44]
    bytes. *)
Theorem export_is_wav_of_current_mix (events : list App.event) :
  let s := App.run events in
  App.effectPending s = false ->
  (App.handleDownload s).1 =
    (if App.audioContextRef s && negb (bool_decide (App.tracks s = []))
     then mixAudioTracks (App.tracks s) ≫= audioBufferToWav
     else None) /\
  (forall L,
     App.audioContextRef s = true -> App.tracks s <> [] ->
     Forall track_ok (App.tracks s) ->
     frameCount (App.tracks s) = Some L -> 0 < L -> 4 * L + 44 < 2 ^ 32 ->
     exists out wav,
       mixAudioTracks (App.tracks s) = Some out /\
       (App.handleDownload s).1 = Some wav /\
       wav = wavHeader 2 (L * 2 * 2 + 44) SAMPLE_RATE 0 ++ wavData out /\
       Z.of_nat (List.length wav) = 4 * L + 44 /\
       WavHeader.channels wav = 2 /\
       WavHeader.sampleRate wav = SAMPLE_RATE /\
       WavHeader.bitsPerSample wav = 16).
Proof.
  cbv zeta. intros Hp. pose proof (run_settled events Hp) as Hs. split.
  - apply handleDownload_outcome, Hs.
  - intros L. apply handleDownload_mix, Hs.
Qed.

Lemma export_is_wav_of_current_mix_witness :
  exists wav,
    (App.handleDownload
       (App.run [App.Mount; App.FileUpload [("a"%string, demoMono)];
                 App.RunEffects])).1 = Some wav /\
    Z.of_nat (List.length wav) = 56 /\
    WavHeader.channels wav = 2.
Proof.
  destruct (export_is_wav_of_current_mix
              [App.Mount; App.FileUpload [("a"%string, demoMono)]; App.RunEffects])
    as [_ H]; [reflexivity|].
  destruct (H 3) as (out & wav & _ & Hw & _ & Hlen & Hc & _).
  - reflexivity.
  - discriminate.
  - constructor; [apply demoMono_ok | constructor].
  - vm_compute. reflexivity.
  - lia.
  - lia.
  - exists wav. split; [exact Hw|]. split; [exact Hlen | exact Hc].
Defined.


(** An edit of a start time in the track editor changes nothing but the
    start time of the tracks with that identifier, and the new start time is
    a number that is neither NaN nor negative, whatever was typed. *)
Theorem edited_start_time_is_not_negative (i : string) (parsed : number) (s : App.State) :
  Forall2 (fun t t' =>
             id t' = id t /\ buffer t' = buffer t /\ duration t' = duration t /\
             if decide (id t = i)
             then leb zero (startTime t') = true
             else startTime t' = startTime t)
    (App.tracks s) (App.tracks (TrackItem.onChange i parsed s)).
Proof.
  unfold TrackItem.onChange.
  eapply Forall2_impl; [apply updateTrackStartTime_tracks|].
  intros t t' (Hi & Hb & Hd & Hs). repeat (split; [assumption|]).
  destruct (decide (id t = i)); [|exact Hs].
  rewrite Hs. apply edited_start_time.
Qed.

(** The duration the timeline divides by is NaN only for a NaN total
    duration, and otherwise at least 1: it is never zero. *)
Theorem safeDuration_is_at_least_one (totalDuration : number) :
  match totalDuration with
  | S754_nan => Timeline.safeDuration totalDuration = NaN
  | _ => leb (of_Z 1) (Timeline.safeDuration totalDuration) = true
  end.
Proof. apply safeDuration_at_least_one. Qed.

(** ** Scaling of non-negative samples *)

Lemma scale_nonnegative (y : number) :
  within false 1 y -> scale y = truncate (mul y (of_Z 32767)).
Proof.
  intros Hy. destruct y as [s'|s'| |s' m e]; cbn [within] in Hy; try contradiction.
  - subst s'. reflexivity.
  - assert (Hs : s' = false) by apply Hy. subst s'.
    assert (H2 : within false 32767 (mul (S754_finite false m e) (of_Z 32767))).
    { change (of_Z 32767) with (S754_finite false 9006924376834048 (-38)).
      apply mul_within; [exact Hy | lia | lia | reflexivity]. }
    apply truncate_within in H2 as (v2 & Ht2 & Hv2); [|lia].
    unfold scale.
    change (of_dyadic 1 (-1)) with (S754_finite false 4503599627370496 (-53)).
    rewrite ltb_add_nonneg by eauto.
    apply ToInt32_small. rewrite Ht2. cbn [cond_Zopp]. lia.
Qed.

(** A sample whose sign bit is clear is clamped and then scaled by 32767,
    and the product is truncated toward zero; [| 0] never wraps it. *)
Theorem nonnegative_samples_scale_by_32767 (x : number) :
  valid x = true -> signbit x = Some false ->
  sampleToInt16 x = truncate (mul (clamp x) (of_Z 32767)).
Proof.
  intros Hv Hs. pose proof (clamp_within_sign x Hv) as H. rewrite Hs in H.
  unfold sampleToInt16. apply scale_nonnegative, H.
Qed.

Lemma nonnegative_samples_scale_by_32767_witness :
  sampleToInt16 (of_dyadic 1 (-2)) = truncate (mul (clamp (of_dyadic 1 (-2))) (of_Z 32767)).
Proof. apply nonnegative_samples_scale_by_32767; reflexivity. Defined.
